(** * countdown-server: the countdown image server (server.js, final version)

    A shallow embedding of the parts of [server.js] that decide what the
    server shows and when it rebuilds the animation:

    - the time source [getRemainingParts] and the formatter [pad2];
    - the frame renderer [drawCountdownFrame], as the sequence of calls it
      makes on the 2D context;
    - the animation builder [buildCountdownGIF];
    - the GIF endpoint with its cache [gifCache] and its in-flight map
      [gifInFlight], run by an event loop with a microtask queue.

    Instants are integers (milliseconds since the epoch, as [Date.getTime]
    returns them).  The numbers the handler computes from the query are
    integers or NaN. *)

From Stdlib Require Import ZArith Lia List Ascii String.
From stdpp Require Import gmap strings pretty list fin_maps.

Open Scope Z_scope.

(** ** JavaScript values and built-ins used by the server *)

Module Js.

(** A number of the request handler: an integer, or NaN. *)
Inductive jsnum :=
| NaN
| Int (z : Z).

Global Instance jsnum_eq_dec : EqDecision jsnum.
Proof. solve_decision. Defined.

(** [Math.max(a, b)] and [Math.min(a, b)]: NaN if either argument is NaN. *)
Definition Math_max (a b : jsnum) : jsnum :=
  match a, b with
  | Int x, Int y => Int (Z.max x y)
  | _, _ => NaN
  end.

Definition Math_min (a b : jsnum) : jsnum :=
  match a, b with
  | Int x, Int y => Int (Z.min x y)
  | _, _ => NaN
  end.

(** [String(n)]: the decimal numeral of an integer; ["NaN"] for NaN. *)
Definition String_of_Z (z : Z) : string := pretty z.

Definition String_of (n : jsnum) : string :=
  match n with
  | NaN => "NaN"
  | Int z => String_of_Z z
  end.

(** The first [n] characters of [pad] repeated; [cur] is what is left of the
    copy of [pad] being consumed. *)
Fixpoint fill (n : nat) (pad cur : string) : string :=
  match n with
  | O => EmptyString
  | S n' =>
      match cur with
      | String c rest => String c (fill n' pad rest)
      | EmptyString =>
          match pad with
          | String c rest => String c (fill n' pad rest)
          | EmptyString => EmptyString
          end
      end
  end.

(** [s.padStart(targetLength, padString)]. *)
Definition padStart (s : string) (targetLength : nat) (padString : string) : string :=
  let len := String.length s in
  if (targetLength <=? len)%nat then s
  else fill (targetLength - len) padString padString +:+ s.

(** White space that [parseInt] skips (the ASCII part of it).  Query values
    are ASCII strings here.  The white space outside ASCII that [parseInt]
    also skips (U+00A0, U+FEFF, U+2003 and the like) is not modelled: on a
    value that begins with such a character the code reads the number
    after it, which [parseInt] below does not. *)
Definition is_white_space (c : ascii) : bool :=
  match nat_of_ascii c with
  | 9%nat | 10%nat | 11%nat | 12%nat | 13%nat | 32%nat => true
  | _ => false
  end.

Fixpoint trimStart (s : string) : string :=
  match s with
  | String c rest => if is_white_space c then trimStart rest else s
  | EmptyString => s
  end.

Definition digit_value (c : ascii) : option Z :=
  let n := nat_of_ascii c in
  if ((48 <=? n) && (n <=? 57))%nat then Some (Z.of_nat n - 48) else None.

(** The value of the longest prefix of decimal digits, after [acc]. *)
Fixpoint parse_digits (s : string) (acc : Z) : Z :=
  match s with
  | String c rest =>
      match digit_value c with
      | Some d => parse_digits rest (10 * acc + d)
      | None => acc
      end
  | EmptyString => acc
  end.

(** [parseInt(s, 10)]: leading white space is skipped, one sign is read, then
    the longest run of digits; NaN when that run is empty.  The value is the
    exact integer.  JavaScript returns the nearest double: the same value up
    to 2^53 in magnitude, a rounded one beyond, Infinity for the longest
    numerals.  [Math.max] and [Math.min] with bounds below 2^53 give the
    same result on either, so the clamped parameters are those of the
    code for every numeral. *)
Definition parseInt (s : string) : jsnum :=
  let str := trimStart s in
  let '(sign, str) :=
    match str with
    | String "-" rest => (-1, rest)
    | String "+" rest => (1, rest)
    | _ => (1, str)
    end in
  match str with
  | String c _ =>
      match digit_value c with
      | Some _ => Int (sign * parse_digits str 0)
      | None => NaN
      end
  | EmptyString => NaN
  end.

End Js.

(** ** Time source *)

Module TimeSource.

(** The object literal [{ days, hours, mins, secs, done }]. *)
Record RemainingParts := mkParts {
  days : Z;
  hours : Z;
  mins : Z;
  secs : Z;
  done : bool
}.

Section WithTarget.

(** [TARGET.getTime()]: the deadline, in milliseconds since the epoch. *)
Variable TARGET : Z.

(** [Math.floor(a / b)] for integers and a positive [b] is [a / b] of [Z];
    [a % b] of JavaScript truncates, as [Z.rem] does.  The double-precision
    quotient [diffMs / 1000] has the same floor as the exact one as long as
    the two instants are less than 2^53 ms apart, some 285 000 years. *)
Definition getRemainingParts (now : Z) : RemainingParts :=
  let diffMs := TARGET - now in
  if diffMs <=? 0 then mkParts 0 0 0 0 true
  else
    let totalSeconds := diffMs / 1000 in
    let days := totalSeconds / 86400 in
    let hours := Z.rem totalSeconds 86400 / 3600 in
    let mins := Z.rem totalSeconds 3600 / 60 in
    let secs := Z.rem totalSeconds 60 in
    mkParts days hours mins secs false.

End WithTarget.

(** The default deadline, 2026-01-31T10:30:00+02:00. *)
Definition TARGET_default : Z := 1769848200000.

End TimeSource.

(** ** Frame renderer *)

Module Render.
Import Js TimeSource.

(** [pad2 = (n) => String(n).padStart(2, "0")]. *)
Definition pad2 (n : Z) : string := padStart (String_of_Z n) 2 "0".

(** The layout arithmetic is floating point: it is kept as the expression the
    source writes, unevaluated. *)
Inductive num :=
| Num (n : jsnum)
| Dec (mantissa : Z) (decimals : nat)   (* a decimal literal: 0.004 is Dec 4 3 *)
| Mul (a b : num)
| Div (a b : num)
| Add (a b : num)
| Sub (a b : num)
| Round (a : num)                       (* Math.round *)
| Max (a b : num).                      (* Math.max *)

(** One call or assignment on the 2D context. *)
Inductive ctxop :=
| set_fillStyle (c : string)
| set_strokeStyle (c : string)
| set_lineWidth (n : num)
| set_textAlign (a : string)
| set_textBaseline (b : string)
| set_font (px : num) (rest : string)   (* `${px}px Arial` *)
| fillRect (x y w h : num)
| strokeRect (x y w h : num)
| beginPath
| moveTo (x y : num)
| lineTo (x y : num)
| stroke
| fillText (text : string) (x y : num).

(** The canvas and its context: its size and everything drawn on it so far. *)
Record Canvas := mkCanvas {
  cwidth : jsnum;
  cheight : jsnum;
  drawn : list ctxop
}.

Definition createCanvas (width height : jsnum) : Canvas := mkCanvas width height [].

Definition emit (ops : list ctxop) (ctx : Canvas) : Canvas :=
  mkCanvas (cwidth ctx) (cheight ctx) (drawn ctx ++ ops).

(** [for (let i = lo; i < lo + count; i++) s = body i s]. *)
Fixpoint for_loop {S : Type} (count : nat) (i : Z) (body : Z -> S -> S) (s : S) : S :=
  match count with
  | O => s
  | Datatypes.S count' => for_loop count' (i + 1) body (body i s)
  end.

(** [arr[i]]; out of range a JavaScript array gives [undefined]. *)
Definition array_get (arr : list string) (i : Z) : string :=
  if i <? 0 then "undefined" else nth (Z.to_nat i) arr "undefined".

Section WithTarget.

Variable TARGET : Z.

Definition drawCountdownFrame (ctx : Canvas) (width height : jsnum) (now : Z) : Canvas :=
  let width' := Num width in
  let height' := Num height in
  let border := Max (Num (Int 2)) (Round (Mul width' (Dec 4 3))) in
  let paddingX := Round (Mul width' (Dec 4 2)) in
  let titleH := Round (Mul height' (Dec 35 2)) in
  let zero := Num (Int 0) in
  (* Background *)
  let ctx := emit [set_fillStyle "#ffffff"; fillRect zero zero width' height'] ctx in
  (* Border *)
  let ctx := emit [set_strokeStyle "#222222"; set_lineWidth border;
                   strokeRect zero zero width' height'] ctx in
  (* Divider line under title *)
  let ctx := emit [set_strokeStyle "#222222";
                   set_lineWidth (Max (Num (Int 1)) (Sub border (Num (Int 1))));
                   beginPath; moveTo zero titleH; lineTo width' titleH; stroke] ctx in
  (* Title text *)
  let ctx := emit [set_fillStyle "#111111"; set_textAlign "center";
                   set_textBaseline "middle";
                   set_font (Round (Mul height' (Dec 12 2))) "px Arial";
                   fillText "TIME TO NEXT AUCTION" (Div width' (Num (Int 2)))
                     (Add (Div titleH (Num (Int 2))) (Round (Mul height' (Dec 2 2))))] ctx in
  (* Remaining time at now *)
  let r := getRemainingParts TARGET now in
  let values := [pad2 (days r); pad2 (hours r); pad2 (mins r); pad2 (secs r)] in
  let labels := ["DAYS"; "HOURS"; "MINUTES"; "SECONDS"] in
  (* Digits area *)
  let digitsTop := Add titleH (Round (Mul height' (Dec 10 2))) in
  let digitsBottom := Sub height' (Round (Mul height' (Dec 15 2))) in
  let digitsAreaH := Sub digitsBottom digitsTop in
  (* Columns *)
  let colCount := 4 in
  let usableW := Sub width' (Mul paddingX (Num (Int 2))) in
  let colW := Div usableW (Num (Int colCount)) in
  (* Big digits *)
  let ctx := emit [set_fillStyle "#111111"; set_textAlign "center";
                   set_textBaseline "alphabetic"] ctx in
  let digitFontSize := Round (Mul digitsAreaH (Dec 65 2)) in
  let ctx := emit [set_font digitFontSize "px Arial"] ctx in
  let ctx := for_loop (Z.to_nat colCount) 0 (fun i ctx =>
               let cx := Add paddingX (Mul colW (Add (Num (Int i)) (Dec 5 1))) in
               emit [fillText (array_get values i) cx
                       (Add digitsTop (Round (Mul digitsAreaH (Dec 68 2))))] ctx) ctx in
  (* Labels *)
  let labelFontSize := Round (Mul digitsAreaH (Dec 16 2)) in
  let ctx := emit [set_font labelFontSize "px Arial"; set_textBaseline "top"] ctx in
  for_loop (Z.to_nat colCount) 0 (fun i ctx =>
    let cx := Add paddingX (Mul colW (Add (Num (Int i)) (Dec 5 1))) in
    emit [fillText (array_get labels i) cx
            (Add digitsTop (Round (Mul digitsAreaH (Dec 80 2))))] ctx) ctx.

End WithTarget.

(** The strings passed to [fillText], in call order. *)
Definition texts (ops : list ctxop) : list string :=
  omap (fun op => match op with fillText t _ _ => Some t | _ => None end) ops.

End Render.

(** ** Animation builder *)

Module Builder.
Import Js TimeSource Render.

(** The state of a [GIFEncoder]: its settings and the frames added to it.
    A frame is the canvas as it is when [addFrame] reads it. *)
Record GIFEncoder := mkEncoder {
  enc_width : jsnum;
  enc_height : jsnum;
  enc_started : bool;
  enc_repeat : option Z;
  enc_delay : option Z;
  enc_quality : option Z;
  enc_frames : list Canvas;
  enc_finished : bool
}.

Definition new_GIFEncoder (width height : jsnum) : GIFEncoder :=
  mkEncoder width height false None None None [] false.

Definition start (e : GIFEncoder) : GIFEncoder :=
  mkEncoder (enc_width e) (enc_height e) true (enc_repeat e) (enc_delay e)
    (enc_quality e) (enc_frames e) (enc_finished e).

Definition setRepeat (n : Z) (e : GIFEncoder) : GIFEncoder :=
  mkEncoder (enc_width e) (enc_height e) (enc_started e) (Some n) (enc_delay e)
    (enc_quality e) (enc_frames e) (enc_finished e).

Definition setDelay (ms : Z) (e : GIFEncoder) : GIFEncoder :=
  mkEncoder (enc_width e) (enc_height e) (enc_started e) (enc_repeat e) (Some ms)
    (enc_quality e) (enc_frames e) (enc_finished e).

Definition setQuality (q : Z) (e : GIFEncoder) : GIFEncoder :=
  mkEncoder (enc_width e) (enc_height e) (enc_started e) (enc_repeat e) (enc_delay e)
    (Some q) (enc_frames e) (enc_finished e).

Definition addFrame (ctx : Canvas) (e : GIFEncoder) : GIFEncoder :=
  mkEncoder (enc_width e) (enc_height e) (enc_started e) (enc_repeat e) (enc_delay e)
    (enc_quality e) (enc_frames e ++ [ctx]) (enc_finished e).

Definition finish (e : GIFEncoder) : GIFEncoder :=
  mkEncoder (enc_width e) (enc_height e) (enc_started e) (enc_repeat e) (enc_delay e)
    (enc_quality e) (enc_frames e) true.

(** The bytes [encoder.out.getData()] returns are a function of what the
    encoder was given: a [Buffer] stands for that. *)
Definition Buffer := GIFEncoder.

(** [start.setMilliseconds(0)] on the time value [t]. *)
Definition setMilliseconds0 (t : Z) : Z := t - t mod 1000.

(** The number of iterations of [for (let i = 0; i < seconds; i++)]. *)
Definition iterations (seconds : jsnum) : nat :=
  match seconds with
  | Int z => Z.to_nat z
  | NaN => O
  end.

Section WithTarget.

Variable TARGET : Z.

(** [clock] is what [new Date()] reads when the builder runs.  The
    defaults of the destructured parameter apply to a missing field only. *)
Definition buildCountdownGIF (width height seconds : option jsnum) (clock : Z) : Buffer :=
  let width := default (Int 640) width in
  let height := default (Int 200) height in
  let seconds := default (Int 60) seconds in
  let encoder := new_GIFEncoder width height in
  let encoder := start encoder in
  let encoder := setRepeat 0 encoder in
  let encoder := setDelay 1000 encoder in
  let encoder := setQuality 10 encoder in
  let ctx := createCanvas width height in
  let start := setMilliseconds0 clock in
  let '(ctx, encoder) :=
    for_loop (iterations seconds) 0 (fun i '(ctx, encoder) =>
      let frameTime := start + i * 1000 in
      let ctx := drawCountdownFrame TARGET ctx width height frameTime in
      (ctx, addFrame ctx encoder)) (ctx, encoder) in
  finish encoder.

End WithTarget.

End Builder.

(** ** Render cache and build coordinator: the GIF endpoint *)

Module Coordinator.
Import Js TimeSource Render Builder.

(** A value of [req.query]: missing, a string, or an array or object, of
    which [parseInt] sees the string conversion. *)
Inductive qvalue :=
| undefined
| qstring (s : string)
| qobject (to_string : string).

(** [v || dflt], as the string [parseInt] is applied to: [undefined] and the
    empty string are falsy, an array or object is not. *)
Definition or_default (v : qvalue) (dflt : string) : string :=
  match v with
  | undefined => dflt
  | qstring EmptyString => dflt
  | qstring s => s
  | qobject s => s
  end.

(** [Math.min(Math.max(parseInt(v || dflt, 10), lo), hi)]. *)
Definition clamp_param (v : qvalue) (dflt : string) (lo hi : Z) : jsnum :=
  Math_min (Math_max (parseInt (or_default v dflt)) (Int lo)) (Int hi).

Definition gifKey (w h s : jsnum) : string :=
  String_of w +:+ "x" +:+ String_of h +:+ "_s" +:+ String_of s.

Record Request := mkRequest {
  rid : nat;              (* which request this is; not read by the handler *)
  query_w : qvalue;
  query_h : qvalue;
  query_s : qvalue
}.

(** What was sent for a request. *)
Record Response := mkResponse {
  headers : list (string * string);
  status : Z;
  body : option Buffer
}.

Definition gif_headers : list (string * string) :=
  [("Content-Type", "image/gif");
   ("Cache-Control", "no-store, no-cache, must-revalidate, proxy-revalidate, max-age=0");
   ("Pragma", "no-cache");
   ("Expires", "0");
   ("Surrogate-Control", "no-store")].

(** [res.end(buf)] and [res.status(500).end()]. *)
Definition res_end (buf : Buffer) : Response := mkResponse gif_headers 200 (Some buf).
Definition res_status_500_end : Response := mkResponse gif_headers 500 None.

(** A value of [gifCache]: [{ buf, expiresAt }]. *)
Record CacheEntry := mkEntry {
  buf : Buffer;
  expiresAt : Z
}.

(** The promise an async function without [await] returns: settled when the
    call returns. *)
Inductive Promise :=
| Fulfilled (b : Buffer)
| Rejected.

(** A handler suspended at an [await], with the promise it awaits:
    [await gifInFlight.get(key)] or [await buildPromise]. *)
Inductive Job :=
| AwaitInFlight (r : nat) (key : string) (p : Promise)
| AwaitBuild (r : nat) (key : string) (p : Promise).

(** What happened, in order (a log kept beside the program state). *)
Inductive Event :=
| BuildStart (r : nat) (key : string)    (* buildCountdownGIF is entered *)
| BuildReturn (r : nat) (key : string)   (* buildCountdownGIF returns *)
| BuildThrow (r : nat) (key : string)    (* buildCountdownGIF throws *)
| CacheSet (key : string)
| InFlightSet (key : string)
| InFlightDelete (key : string).

Global Instance Event_eq_dec : EqDecision Event.
Proof. solve_decision. Defined.

Record Server := mkServer {
  gifCache : gmap string CacheEntry;
  gifInFlight : gmap string Promise;
  microtasks : list Job;                 (* first in, first out *)
  sent : list (nat * Response);          (* responses, in the order sent *)
  trace : list Event
}.

Definition initial : Server := mkServer ∅ ∅ [] [] [].

Definition set_gifCache (f : gmap string CacheEntry -> gmap string CacheEntry) (st : Server) :=
  mkServer (f (gifCache st)) (gifInFlight st) (microtasks st) (sent st) (trace st).
Definition set_gifInFlight (f : gmap string Promise -> gmap string Promise) (st : Server) :=
  mkServer (gifCache st) (f (gifInFlight st)) (microtasks st) (sent st) (trace st).
Definition enqueue (j : Job) (st : Server) :=
  mkServer (gifCache st) (gifInFlight st) (microtasks st ++ [j]) (sent st) (trace st).
Definition respond (r : nat) (resp : Response) (st : Server) :=
  mkServer (gifCache st) (gifInFlight st) (microtasks st) (sent st ++ [(r, resp)]) (trace st).
Definition log (e : Event) (st : Server) :=
  mkServer (gifCache st) (gifInFlight st) (microtasks st) (sent st) (trace st ++ [e]).

(** What the environment gives one request: the request, the reading of
    [Date.now()] in the handler, and, should the handler build, the reading
    of [new Date()] in the builder and whether canvas or encoder throw. *)
Record Arrival := mkArrival {
  request : Request;
  date_now : Z;
  build_clock : Z;
  build_throws : bool
}.

Definition param_w (a : Arrival) : jsnum := clamp_param (query_w (request a)) "640" 320 1200.
Definition param_h (a : Arrival) : jsnum := clamp_param (query_h (request a)) "200" 140 600.
Definition param_s (a : Arrival) : jsnum := clamp_param (query_s (request a)) "60" 10 120.
Definition key_of (a : Arrival) : string := gifKey (param_w a) (param_h a) (param_s a).

Section WithTarget.

Variable TARGET : Z.

(** The call of the async arrow function
    [(async () => { const buf = buildCountdownGIF(..); gifCache.set(..); return buf; })()]:
    its body has no [await], so it runs to its end before the call
    returns the promise. *)
Definition buildPromise (a : Arrival) (w h s : jsnum) (key : string) (now : Z)
    (st : Server) : Promise * Server :=
  let st := log (BuildStart (rid (request a)) key) st in
  if build_throws a then (Rejected, log (BuildThrow (rid (request a)) key) st)
  else
    let buf := buildCountdownGIF TARGET (Some w) (Some h) (Some s) (build_clock a) in
    let st := log (BuildReturn (rid (request a)) key) st in
    let st := set_gifCache (insert key (mkEntry buf (now + 60000))) st in
    let st := log (CacheSet key) st in
    (Fulfilled buf, st).

(** The handler of [GET /countdown.gif], up to its return or first [await]. *)
Definition get_countdown_gif (a : Arrival) (st : Server) : Server :=
  let r := rid (request a) in
  let w := clamp_param (query_w (request a)) "640" 320 1200 in
  let h := clamp_param (query_h (request a)) "200" 140 600 in
  let s := clamp_param (query_s (request a)) "60" 10 120 in
  let key := gifKey w h s in
  let now := date_now a in
  let cached := gifCache st !! key in
  match (match cached with
         | Some c => if expiresAt c >? now then Some c else None
         | None => None
         end) with
  | Some c => respond r (res_end (buf c)) st
  | None =>
      match gifInFlight st !! key with
      | Some p => enqueue (AwaitInFlight r key p) st
      | None =>
          let '(p, st) := buildPromise a w h s key now st in
          let st := set_gifInFlight (insert key p) st in
          let st := log (InFlightSet key) st in
          enqueue (AwaitBuild r key p) st
      end
  end.

(** The rest of a handler, run when its [await] resumes. *)
Definition resume (j : Job) (st : Server) : Server :=
  match j with
  | AwaitInFlight r key p =>
      match p with
      | Fulfilled buf => respond r (res_end buf) st
      | Rejected =>
          let st := set_gifInFlight (delete key) st in
          let st := log (InFlightDelete key) st in
          respond r res_status_500_end st
      end
  | AwaitBuild r key p =>
      let st :=
        match p with
        | Fulfilled buf => respond r (res_end buf) st
        | Rejected => respond r res_status_500_end st
        end in
      let st := set_gifInFlight (delete key) st in
      log (InFlightDelete key) st
  end.

(** The microtask checkpoint at the end of an event-loop turn: every
    suspended handler whose promise is settled resumes, in queue order. *)
Definition checkpoint (st : Server) : Server :=
  fold_left (fun st j => resume j st) (microtasks st)
    (mkServer (gifCache st) (gifInFlight st) [] (sent st) (trace st)).

(** One turn of the event loop handles the requests it has read, then
    reaches the checkpoint.  Requests on separate connections come in
    separate turns; requests pipelined on one connection can be handled in
    the same turn, one after the other.  The builder is synchronous, so a
    handler is never interrupted before its [await]. *)
Inductive Action :=
| Handle (a : Arrival)
| Checkpoint.

Definition step (st : Server) (act : Action) : Server :=
  match act with
  | Handle a => get_countdown_gif a st
  | Checkpoint => checkpoint st
  end.

Definition exec (acts : list Action) (st : Server) : Server :=
  fold_left step acts st.

(** A turn: the requests read in it, then the checkpoint. *)
Definition turn (arrivals : list Arrival) : list Action :=
  map Handle arrivals ++ [Checkpoint].

(** Requests that arrive together on separate connections: one turn each. *)
Definition separate_turns (arrivals : list Arrival) : list Action :=
  concat (map (fun a => turn [a]) arrivals).

End WithTarget.

(** How many times [buildCountdownGIF] was entered for [key]. *)
Definition is_build_for (key : string) (e : Event) : bool :=
  match e with
  | BuildStart _ k => bool_decide (k = key)
  | _ => false
  end.

Definition builds_for (key : string) (tr : list Event) : nat :=
  length (List.filter (is_build_for key) tr).

End Coordinator.

(** ** Reference descriptions the code is compared with *)

Module Reference.
Import Js TimeSource Render Builder.

(** The ASCII digit of [d], for [0 <= d <= 9]. *)
Definition digit_char (d : Z) : ascii := ascii_of_nat (48 + Z.to_nat d).

(** In the spec's words: the zero-padded two-digit representation of a
    field, tens digit then units digit. *)
Definition zero_padded_two_digit (n : Z) : string :=
  String (digit_char (n / 10)) (String (digit_char (n mod 10)) EmptyString).

Section Animation.

Variables (TARGET : Z) (width height : jsnum) (start : Z).

(** The one reused canvas before frame [i] is drawn: frames [0 .. i-1]
    drawn on it in turn, frame [j] at [start + j * 1000]. *)
Fixpoint canvas_before (i : nat) : Canvas :=
  match i with
  | O => createCanvas width height
  | S j => drawCountdownFrame TARGET (canvas_before j) width height
             (start + Z.of_nat j * 1000)
  end.

(** The canvas once frame [i] is drawn, as [addFrame] reads it. *)
Definition canvas_after (i : nat) : Canvas := canvas_before (S i).

End Animation.

End Reference.

(** ** Conditions on the coordinator's state *)

Module Conditions.
Import Js TimeSource Render Builder Coordinator.

(** The cache has no entry for [key] that is still fresh at [now]: none at
    all, or one that has expired. *)
Definition cache_miss (st : Server) (key : string) (now : Z) : Prop :=
  forall c, gifCache st !! key = Some c -> expiresAt c <= now.

(** Every key of [gifInFlight] belongs to a handler that built for it and
    has not resumed yet. *)
Definition in_flight_owned (st : Server) : Prop :=
  forall k, is_Some (gifInFlight st !! k) ->
    exists r p, AwaitBuild r k p ∈ microtasks st.

(** In a trace, every entry into the builder is followed at once by its
    return or its throw: no two builds overlap. *)
Definition builds_atomic (tr : list Event) : Prop :=
  forall (i r : nat) (k : string),
    tr !! i = Some (BuildStart r k) ->
    tr !! S i = Some (BuildReturn r k) \/ tr !! S i = Some (BuildThrow r k).

(** What the builder returns for the parameters of [a]. *)
Definition bytes_of (TARGET : Z) (a : Arrival) : Buffer :=
  buildCountdownGIF TARGET (Some (param_w a)) (Some (param_h a)) (Some (param_s a))
    (build_clock a).

End Conditions.

(** ** Concrete requests used in the examples below *)

Module Scenarios.
Import Js TimeSource Render Builder Coordinator.

(** 2026-01-01T00:00:00Z. *)
Definition t0 : Z := 1767225600000.

(** [GET /countdown.gif?w=320&h=140&s=10]. *)
Definition small_query (r : nat) : Request :=
  mkRequest r (qstring "320") (qstring "140") (qstring "10").

Definition small_key : string := "320x140_s10".

(** A request at [t0] whose build succeeds. *)
Definition first_ok : Arrival := mkArrival (small_query 1) t0 (t0 + 7) false.

(** The same query 59.999 s and 60 s later. *)
Definition second_before_expiry : Arrival :=
  mkArrival (small_query 2) (t0 + 59999) (t0 + 60006) false.
Definition second_at_expiry : Arrival :=
  mkArrival (small_query 2) (t0 + 60000) (t0 + 60007) false.

(** The same query, with canvas or encoder failing during the build. *)
Definition first_failing : Arrival := mkArrival (small_query 1) t0 (t0 + 7) true.
Definition second_failing : Arrival := mkArrival (small_query 2) (t0 + 40) (t0 + 47) true.
Definition later_failing : Arrival :=
  mkArrival (small_query 2) (t0 + 60000) (t0 + 60007) true.

(** A request that joins [later_failing] in its turn. *)
Definition later_joiner : Arrival :=
  mkArrival (small_query 3) (t0 + 60001) (t0 + 60008) false.

(** [GET /countdown.gif?w=abc]. *)
Definition non_numeric_width : Arrival :=
  mkArrival (mkRequest 1 (qstring "abc") undefined undefined) t0 (t0 + 7) false.

End Scenarios.

(** ** Still image and its endpoint *)

Module Still.
Import Js TimeSource Render Builder Coordinator.

(** What [GET /countdown.png] sends.  [canvas.toBuffer("image/png")] is a
    function of the canvas: the canvas stands for the bytes. *)
Record PngResponse := mkPng {
  png_headers : list (string * string);
  png_status : Z;
  png_body : Canvas
}.

Definition png_headers_set : list (string * string) :=
  [("Content-Type", "image/png");
   ("Cache-Control", "no-store, no-cache, must-revalidate, proxy-revalidate, max-age=0");
   ("Pragma", "no-cache");
   ("Expires", "0");
   ("Surrogate-Control", "no-store")].

Section WithTarget.

Variable TARGET : Z.

(** [drawCountdownPNG({ width = 640, height = 200 })]; [clock] is what
    [new Date()] reads. *)
Definition drawCountdownPNG (width height : option jsnum) (clock : Z) : Canvas :=
  let width := default (Int 640) width in
  let height := default (Int 200) height in
  let canvas := createCanvas width height in
  let ctx := canvas in
  drawCountdownFrame TARGET ctx width height clock.

(** The handler of [GET /countdown.png].  It has no [try]: when canvas
    throws while the image is made ([canvas_throws], given by the
    environment), the exception leaves the handler and the handler sends
    nothing: [None]. *)
Definition get_countdown_png (query_w query_h : qvalue) (clock : Z)
    (canvas_throws : bool) : option PngResponse :=
  let w := clamp_param query_w "640" 320 1200 in
  let h := clamp_param query_h "200" 140 600 in
  if canvas_throws then None
  else
    let buf := drawCountdownPNG (Some w) (Some h) clock in
    Some (mkPng png_headers_set 200 buf).

End WithTarget.

End Still.

(** ** The first draft of the still image (the file without the frame
    function), where the drawing is written inside [drawCountdownPNG] *)

Module FirstDraft.
Import Js TimeSource Render Builder.

Section WithTarget.

Variable TARGET : Z.

Definition drawCountdownPNG (width height : option jsnum) (clock : Z) : Canvas :=
  let width := default (Int 640) width in
  let height := default (Int 200) height in
  let ctx := createCanvas width height in
  let width' := Num width in
  let height' := Num height in
  (* Layout constants (scaled for different widths) *)
  let border := Max (Num (Int 2)) (Round (Mul width' (Dec 4 3))) in
  let paddingX := Round (Mul width' (Dec 4 2)) in
  let titleH := Round (Mul height' (Dec 35 2)) in
  let zero := Num (Int 0) in
  let two := Num (Int 2) in
  (* Background *)
  let ctx := emit [set_fillStyle "#ffffff"; fillRect zero zero width' height'] ctx in
  (* Border *)
  let ctx := emit [set_strokeStyle "#222222"; set_lineWidth border;
                   strokeRect (Div border two) (Div border two)
                     (Sub width' border) (Sub height' border)] ctx in
  (* Title line + divider *)
  let ctx := emit [set_strokeStyle "#222222";
                   set_lineWidth (Max (Num (Int 1)) (Sub border (Num (Int 1))));
                   beginPath; moveTo zero titleH; lineTo width' titleH; stroke] ctx in
  (* Title text *)
  let ctx := emit [set_fillStyle "#111111"; set_textAlign "center";
                   set_textBaseline "middle";
                   set_font (Round (Mul height' (Dec 12 2))) "px Arial";
                   fillText "TIME TO NEXT AUCTION" (Div width' two)
                     (Add (Div titleH two) (Round (Mul height' (Dec 2 2))))] ctx in
  (* Remaining time *)
  let r := getRemainingParts TARGET clock in
  let values := [pad2 (days r); pad2 (hours r); pad2 (mins r); pad2 (secs r)] in
  let labels := ["DAYS"; "HOURS"; "MINUTES"; "SECONDS"] in
  (* Digits row area *)
  let digitsTop := Add titleH (Round (Mul height' (Dec 10 2))) in
  let digitsBottom := Sub height' (Round (Mul height' (Dec 15 2))) in
  let digitsAreaH := Sub digitsBottom digitsTop in
  (* Column positions *)
  let colCount := 4 in
  let usableW := Sub width' (Mul paddingX two) in
  let colW := Div usableW (Num (Int colCount)) in
  (* Big digits *)
  let ctx := emit [set_fillStyle "#111111"; set_textAlign "center";
                   set_textBaseline "alphabetic"] ctx in
  let digitFontSize := Round (Mul digitsAreaH (Dec 65 2)) in
  let ctx := emit [set_font digitFontSize "px Arial"] ctx in
  let ctx := for_loop (Z.to_nat colCount) 0 (fun i ctx =>
               let cx := Add paddingX (Mul colW (Add (Num (Int i)) (Dec 5 1))) in
               emit [fillText (array_get values i) cx
                       (Add digitsTop (Round (Mul digitsAreaH (Dec 68 2))))] ctx) ctx in
  (* Labels underneath *)
  let labelFontSize := Round (Mul digitsAreaH (Dec 16 2)) in
  let ctx := emit [set_font labelFontSize "px Arial"; set_textBaseline "top"] ctx in
  for_loop (Z.to_nat colCount) 0 (fun i ctx =>
    let cx := Add paddingX (Mul colW (Add (Num (Int i)) (Dec 5 1))) in
    emit [fillText (array_get labels i) cx
            (Add digitsTop (Round (Mul digitsAreaH (Dec 80 2))))] ctx) ctx.

End WithTarget.

End FirstDraft.

(** ** The GIF endpoint before the cache was added *)

Module Uncached.
Import Js TimeSource Render Builder Coordinator.

Section WithTarget.

Variable TARGET : Z.

(** The handler builds on every request and sends the result; it has no
    [try]: [None] is an exception of canvas or encoder leaving the handler. *)
Definition get_countdown_gif (a : Arrival) : option Response :=
  let w := clamp_param (query_w (request a)) "640" 320 1200 in
  let h := clamp_param (query_h (request a)) "200" 140 600 in
  let s := clamp_param (query_s (request a)) "60" 10 120 in
  if build_throws a then None
  else
    let gif := buildCountdownGIF TARGET (Some w) (Some h) (Some s) (build_clock a) in
    Some (res_end gif).

End WithTarget.

End Uncached.

(** ** Measures used to state properties of runs *)

Module Measures.
Import Js TimeSource Render Builder Coordinator Conditions.

(** The whole seconds a [RemainingParts] stands for. *)
Definition seconds_left (r : RemainingParts) : Z :=
  days r * 86400 + hours r * 3600 + mins r * 60 + secs r.

(** The requests handled in a run, in order. *)
Fixpoint handled (acts : list Action) : list Arrival :=
  match acts with
  | [] => []
  | Handle a :: rest => a :: handled rest
  | Checkpoint :: rest => handled rest
  end.

(** The request a suspended handler belongs to, and its key. *)
Definition job_rid (j : Job) : nat :=
  match j with
  | AwaitInFlight r _ _ => r
  | AwaitBuild r _ _ => r
  end.

Definition job_key (j : Job) : string :=
  match j with
  | AwaitInFlight _ k _ => k
  | AwaitBuild _ k _ => k
  end.

Definition job_promise (j : Job) : Promise :=
  match j with
  | AwaitInFlight _ _ p => p
  | AwaitBuild _ _ p => p
  end.

(** The border of the frame function: the rectangle of the whole canvas. *)
Definition flush_border (width height : jsnum) (op : ctxop) : ctxop :=
  match op with
  | strokeRect _ _ _ _ => strokeRect (Num (Int 0)) (Num (Int 0)) (Num width) (Num height)
  | _ => op
  end.

(** Every character of [s] satisfies [p]. *)
Fixpoint string_forall (p : ascii -> bool) (s : string) : bool :=
  match s with
  | EmptyString => true
  | String c rest => p c && string_forall p rest
  end.

(** The characters [String] of a number can need: digits, the sign, and the
    letters of ["NaN"]. *)
Definition is_number_char (c : ascii) : bool :=
  match digit_value c with
  | Some _ => true
  | None => bool_decide (c = "-"%char) || bool_decide (c = "N"%char)
            || bool_decide (c = "a"%char)
  end.

(** Where the bytes held by the server come from.  [H] is the list of the
    requests handled so far. *)
Definition built_for (TARGET : Z) (H : list Arrival) (k : string) (b : Buffer) : Prop :=
  exists a, In a H /\ key_of a = k /\ build_throws a = false /\ b = bytes_of TARGET a.

Definition cache_prov (TARGET : Z) (H : list Arrival) (st : Server) : Prop :=
  forall k c, gifCache st !! k = Some c ->
    exists a, In a H /\ key_of a = k /\ build_throws a = false
              /\ buf c = bytes_of TARGET a /\ expiresAt c = date_now a + 60000.

Definition in_flight_prov (TARGET : Z) (H : list Arrival) (st : Server) : Prop :=
  forall k b, gifInFlight st !! k = Some (Fulfilled b) -> built_for TARGET H k b.

Definition job_prov (TARGET : Z) (H : list Arrival) (j : Job) : Prop :=
  (exists a, In a H /\ rid (request a) = job_rid j /\ key_of a = job_key j)
  /\ forall b, job_promise j = Fulfilled b -> built_for TARGET H (job_key j) b.

Definition sent_prov (TARGET : Z) (H : list Arrival) (st : Server) : Prop :=
  forall r resp, In (r, resp) (sent st) ->
    resp = res_status_500_end
    \/ exists a b, In a H /\ rid (request a) = r
                   /\ built_for TARGET H (key_of a) b /\ resp = res_end b.

Definition provenance (TARGET : Z) (H : list Arrival) (st : Server) : Prop :=
  cache_prov TARGET H st /\ in_flight_prov TARGET H st
  /\ Forall (job_prov TARGET H) (microtasks st) /\ sent_prov TARGET H st.

End Measures.

(** * Properties *)

Import Js TimeSource Render Builder Coordinator Reference Conditions Scenarios.
Import Still Measures.

(** ** The time source *)

Section TimeSourceFacts.

Variable TARGET : Z.

Lemma getRemainingParts_elapsed (now : Z) :
  TARGET - now <= 0 -> getRemainingParts TARGET now = mkParts 0 0 0 0 true.
Proof.
  intros Hle. unfold getRemainingParts.
  destruct (Z.leb_spec (TARGET - now) 0) as [_ | Hgt]; [reflexivity | lia].
Qed.

(** Before the deadline the fields are the successive quotients and
    remainders of the whole seconds left. *)
Lemma getRemainingParts_running (now : Z) :
  0 < TARGET - now ->
  let total := (TARGET - now) / 1000 in
  getRemainingParts TARGET now =
    mkParts (total / 86400) (total mod 86400 / 3600) (total mod 3600 / 60)
      (total mod 60) false.
Proof.
  intros Hpos total. unfold getRemainingParts.
  destruct (Z.leb_spec (TARGET - now) 0) as [Hle | _]; [lia |].
  assert (0 <= total) by (subst total; apply Z.div_pos; lia).
  fold total. rewrite !Z.rem_mod_nonneg by lia. reflexivity.
Qed.

End TimeSourceFacts.

(** C5. For every instant [now] before the deadline, the fields of
    [getRemainingParts now] add up to the whole seconds left,
    [floor((TARGET - now) / 1000)], with [hours < 24], [mins < 60] and
    [secs < 60]; each field is the quotient taken from the remainder of the
    division before it. *)
Theorem remaining_parts_reconstruct_total (TARGET now : Z) :
  now < TARGET ->
  let r := getRemainingParts TARGET now in
  let total := (TARGET - now) / 1000 in
  days r * 86400 + hours r * 3600 + mins r * 60 + secs r = total
  /\ 0 <= days r /\ 0 <= hours r < 24 /\ 0 <= mins r < 60 /\ 0 <= secs r < 60
  /\ days r = total / 86400
  /\ hours r = (total mod 86400) / 3600
  /\ mins r = ((total mod 86400) mod 3600) / 60
  /\ secs r = ((total mod 86400) mod 3600) mod 60
  /\ done r = false.
Proof.
  intros Hlt r total. subst r.
  rewrite getRemainingParts_running by lia. fold total. simpl.
  assert (0 <= total) by (subst total; apply Z.div_pos; lia).
  generalize dependent total. intros total Htotal.
  repeat split; Z.div_mod_to_equations; lia.
Qed.

Lemma remaining_parts_reconstruct_total_witness :
  let r := getRemainingParts TARGET_default (TARGET_default - 90061001) in
  days r * 86400 + hours r * 3600 + mins r * 60 + secs r = 90061
  /\ hours r = 1 /\ secs r = 1.
Proof.
  pose proof (remaining_parts_reconstruct_total TARGET_default
                (TARGET_default - 90061001) ltac:(unfold TARGET_default; lia)) as H.
  cbv zeta in H. destruct H as (Hsum & _).
  split; [exact Hsum | split; reflexivity].
Defined.

(** C6. For every instant [now] at or after the deadline (the difference is
    zero or negative), [getRemainingParts now] is the all-zero record with
    [done = true]: an ordinary value, returned like any other. *)
Theorem remaining_parts_elapsed (TARGET now : Z) :
  TARGET <= now ->
  getRemainingParts TARGET now = mkParts 0 0 0 0 true.
Proof.
  intros Hle. apply getRemainingParts_elapsed. lia.
Qed.

Lemma remaining_parts_elapsed_witness :
  getRemainingParts TARGET_default TARGET_default = mkParts 0 0 0 0 true
  /\ getRemainingParts TARGET_default (TARGET_default + 1) = mkParts 0 0 0 0 true.
Proof.
  split; apply remaining_parts_elapsed; unfold TARGET_default; lia.
Defined.

(** C10. In the last second before the deadline, [0 < TARGET - now < 1000],
    the four fields are zero as in the elapsed state and only [done = false]
    tells the two apart. *)
Theorem remaining_parts_final_subsecond (TARGET now : Z) :
  0 < TARGET - now < 1000 ->
  let r := getRemainingParts TARGET now in
  let r_elapsed := getRemainingParts TARGET TARGET in
  r = mkParts 0 0 0 0 false
  /\ r_elapsed = mkParts 0 0 0 0 true
  /\ days r = days r_elapsed /\ hours r = hours r_elapsed
  /\ mins r = mins r_elapsed /\ secs r = secs r_elapsed
  /\ done r <> done r_elapsed.
Proof.
  intros Hsub r r_elapsed.
  assert (Hr : r = mkParts 0 0 0 0 false).
  { subst r. rewrite getRemainingParts_running by lia.
    replace ((TARGET - now) / 1000) with 0 by (symmetry; apply Z.div_small; lia).
    reflexivity. }
  assert (He : r_elapsed = mkParts 0 0 0 0 true).
  { subst r_elapsed. apply getRemainingParts_elapsed. lia. }
  rewrite Hr, He. simpl. repeat split; discriminate.
Qed.

Lemma remaining_parts_final_subsecond_witness :
  getRemainingParts TARGET_default (TARGET_default - 999) = mkParts 0 0 0 0 false.
Proof.
  apply (remaining_parts_final_subsecond TARGET_default (TARGET_default - 999)).
  unfold TARGET_default. lia.
Defined.

(** ** The frame renderer *)

Section RenderFacts.

Lemma texts_app (l1 l2 : list ctxop) : texts (l1 ++ l2) = texts l1 ++ texts l2.
Proof. unfold texts. apply omap_app. Qed.

Lemma emit_emit (a b : list ctxop) (ctx : Canvas) :
  emit b (emit a ctx) = emit (a ++ b) ctx.
Proof.
  unfold emit. cbn [drawn cwidth cheight]. rewrite (app_assoc (drawn ctx) a b).
  reflexivity.
Qed.

(** A frame is drawn after whatever the canvas already holds. *)
Lemma drawCountdownFrame_appends (TARGET : Z) (ctx : Canvas) (w h : jsnum) (now : Z) :
  drawCountdownFrame TARGET ctx w h now =
    mkCanvas (cwidth ctx) (cheight ctx)
      (drawn ctx ++ drawn (drawCountdownFrame TARGET (mkCanvas w h []) w h now)).
Proof.
  unfold drawCountdownFrame.
  change (Z.to_nat 4) with 4%nat.
  generalize (getRemainingParts TARGET now); intros r.
  generalize (pad2 (days r)) (pad2 (hours r)) (pad2 (mins r)) (pad2 (secs r)).
  intros d hh m sc.
  cbn [for_loop emit drawn cwidth cheight].
  change (0 + 1) with 1; change (1 + 1) with 2; change (2 + 1) with 3.
  change (array_get [d; hh; m; sc] 0) with d.
  change (array_get [d; hh; m; sc] 1) with hh.
  change (array_get [d; hh; m; sc] 2) with m.
  change (array_get [d; hh; m; sc] 3) with sc.
  change (array_get ["DAYS"; "HOURS"; "MINUTES"; "SECONDS"] 0) with "DAYS".
  change (array_get ["DAYS"; "HOURS"; "MINUTES"; "SECONDS"] 1) with "HOURS".
  change (array_get ["DAYS"; "HOURS"; "MINUTES"; "SECONDS"] 2) with "MINUTES".
  change (array_get ["DAYS"; "HOURS"; "MINUTES"; "SECONDS"] 3) with "SECONDS".
  rewrite !emit_emit. cbn [app].
  unfold emit. cbn [drawn cwidth cheight app]. reflexivity.
Qed.

Lemma drawCountdownFrame_texts (TARGET : Z) (ctx : Canvas) (w h : jsnum) (now : Z) :
  let r := getRemainingParts TARGET now in
  texts (drawn (drawCountdownFrame TARGET ctx w h now)) =
    texts (drawn ctx) ++
      ["TIME TO NEXT AUCTION";
       pad2 (days r); pad2 (hours r); pad2 (mins r); pad2 (secs r);
       "DAYS"; "HOURS"; "MINUTES"; "SECONDS"].
Proof.
  intros r. rewrite drawCountdownFrame_appends. cbn [drawn].
  rewrite texts_app. f_equal.
Qed.

End RenderFacts.

(** ** [pad2] *)

Section Pad2Facts.

Lemma pretty_N_go_length (x : N) (s : string) :
  (String.length s <= String.length (pretty_N_go x s))%nat.
Proof.
  revert s. induction (N.lt_wf_0 x) as [x _ IH]. intros s.
  destruct (decide (0 < x)%N) as [Hpos | Hzero].
  - rewrite pretty_N_go_step by exact Hpos.
    etrans; [| apply IH; apply N.div_lt; lia].
    simpl. lia.
  - replace x with 0%N by lia. rewrite pretty_N_go_0. lia.
Qed.

Lemma String_of_Z_length (n : Z) :
  10 <= n -> (2 <= String.length (String_of_Z n))%nat.
Proof.
  intros Hn. destruct n as [| p | p]; try lia.
  unfold String_of_Z, pretty, pretty_Z, pretty, pretty_positive, pretty, pretty_N.
  destruct (decide (N.pos p = 0%N)) as [? | _]; [lia |].
  rewrite pretty_N_go_step by lia.
  rewrite pretty_N_go_step.
  2:{ apply N.div_str_pos. lia. }
  etrans; [| apply pretty_N_go_length]. simpl. lia.
Qed.

(** [pad2] puts one ["0"] before a single digit and leaves longer numerals
    as they are. *)
Lemma pad2_spec (n : Z) :
  0 <= n ->
  pad2 n = if n <? 10 then String "0" (String_of_Z n) else String_of_Z n.
Proof.
  intros Hn. destruct (Z.ltb_spec n 10) as [Hlt | Hge].
  - assert (Hall : forallb (fun k => String.eqb (pad2 (Z.of_nat k))
                               (String "0" (String_of_Z (Z.of_nat k))))
                     (seq 0 10) = true) by (vm_compute; reflexivity).
    rewrite forallb_forall in Hall.
    specialize (Hall (Z.to_nat n)).
    rewrite Z2Nat.id in Hall by lia.
    apply String.eqb_eq, Hall, in_seq. lia.
  - unfold pad2, padStart.
    pose proof (String_of_Z_length n Hge) as Hlen.
    destruct (Nat.leb_spec 2 (String.length (String_of_Z n))); [reflexivity | lia].
Qed.

Lemma pad2_two_digit (n : Z) :
  0 <= n < 100 -> pad2 n = zero_padded_two_digit n.
Proof.
  intros Hn.
  assert (Hall : forallb (fun k => String.eqb (pad2 (Z.of_nat k))
                             (zero_padded_two_digit (Z.of_nat k)))
                   (seq 0 100) = true) by (vm_compute; reflexivity).
  rewrite forallb_forall in Hall.
  specialize (Hall (Z.to_nat n)).
  rewrite Z2Nat.id in Hall by lia.
  apply String.eqb_eq, Hall, in_seq. lia.
Qed.

Lemma remaining_parts_bounds (TARGET now : Z) :
  let r := getRemainingParts TARGET now in
  0 <= days r /\ 0 <= hours r < 24 /\ 0 <= mins r < 60 /\ 0 <= secs r < 60.
Proof.
  intros r. subst r.
  destruct (Z_le_gt_dec (TARGET - now) 0) as [Hle | Hgt].
  - rewrite getRemainingParts_elapsed by exact Hle. simpl. lia.
  - rewrite getRemainingParts_running by lia. simpl.
    assert (0 <= (TARGET - now) / 1000) by (apply Z.div_pos; lia).
    generalize dependent ((TARGET - now) / 1000). intros total Htotal.
    repeat split; Z.div_mod_to_equations; lia.
Qed.

End Pad2Facts.

(** From 100 on the numeral has at least three characters. *)
Lemma String_of_Z_length_three (n : Z) :
  100 <= n -> (3 <= String.length (String_of_Z n))%nat.
Proof.
  intros Hn. destruct n as [| p | p]; try lia.
  unfold String_of_Z, pretty, pretty_Z, pretty, pretty_positive, pretty, pretty_N.
  destruct (decide (N.pos p = 0%N)) as [? | _]; [lia |].
  assert (H10 : (0 < N.pos p `div` 10)%N) by (apply N.div_str_pos; lia).
  assert (H100 : (0 < (N.pos p `div` 10) `div` 10)%N).
  { apply N.div_str_pos. split; [lia |].
    apply N.div_le_lower_bound; lia. }
  rewrite pretty_N_go_step by lia.
  rewrite pretty_N_go_step by exact H10.
  rewrite pretty_N_go_step by exact H100.
  etrans; [| apply pretty_N_go_length]. simpl. lia.
Qed.

(** C9 (as amended).  For the remaining time [getRemainingParts now], the
    four digit strings [drawCountdownFrame] draws are [pad2] of [days],
    [hours], [mins] and [secs], in that order, and the four labels are DAYS,
    HOURS, MINUTES and SECONDS.  [pad2] of [hours], [mins] and [secs] is the
    zero-padded two-digit numeral; so is [pad2] of [days] below 100, and
    from 100 days on it is the plain decimal numeral, of three characters or
    more, which [padStart] does not shorten: the days string has two
    characters exactly when [days] is below 100. *)
Theorem frame_texts_are_padded_fields (TARGET : Z) (ctx : Canvas) (w h : jsnum) (now : Z) :
  let r := getRemainingParts TARGET now in
  texts (drawn (drawCountdownFrame TARGET ctx w h now)) =
    texts (drawn ctx) ++
      ["TIME TO NEXT AUCTION";
       pad2 (days r); pad2 (hours r); pad2 (mins r); pad2 (secs r);
       "DAYS"; "HOURS"; "MINUTES"; "SECONDS"]
  /\ pad2 (hours r) = zero_padded_two_digit (hours r)
  /\ pad2 (mins r) = zero_padded_two_digit (mins r)
  /\ pad2 (secs r) = zero_padded_two_digit (secs r)
  /\ pad2 (days r) =
       (if days r <? 100 then zero_padded_two_digit (days r) else String_of_Z (days r))
  /\ (String.length (pad2 (days r)) = 2%nat <-> days r < 100).
Proof.
  intros r.
  destruct (remaining_parts_bounds TARGET now) as (Hd & Hh & Hm & Hs). fold r in Hd, Hh, Hm, Hs.
  split; [apply drawCountdownFrame_texts |].
  do 3 (split; [apply pad2_two_digit; lia |]).
  destruct (Z.ltb_spec (days r) 100) as [Hlt | Hge].
  - rewrite pad2_two_digit by lia. split; [reflexivity |].
    split; [intros _; exact Hlt | intros _; reflexivity].
  - rewrite pad2_spec by lia.
    destruct (Z.ltb_spec (days r) 10); [lia |].
    split; [reflexivity |].
    pose proof (String_of_Z_length_three (days r) Hge) as Hlen.
    split; intros Hfalse; lia.
Qed.

(** C9 as first stated fails: 100 days before the deadline the days string
    drawn is ["100"], three characters, not a two-digit numeral. *)
Lemma days_text_has_three_characters :
  let now := TARGET_default - 8640000000 in
  let r := getRemainingParts TARGET_default now in
  now < TARGET_default
  /\ r = mkParts 100 0 0 0 false
  /\ texts (drawn (drawCountdownFrame TARGET_default (createCanvas (Int 640) (Int 200))
                     (Int 640) (Int 200) now)) =
       ["TIME TO NEXT AUCTION"; "100"; "00"; "00"; "00";
        "DAYS"; "HOURS"; "MINUTES"; "SECONDS"]
  /\ String.length (pad2 (days r)) = 3%nat
  /\ pad2 (days r) <> zero_padded_two_digit (days r).
Proof.
  intros now r.
  split; [vm_compute; reflexivity |].
  split; [vm_compute; reflexivity |].
  split; [vm_compute; reflexivity |].
  split; [vm_compute; reflexivity |].
  vm_compute. discriminate.
Qed.

(** ** The animation builder *)

Section BuilderFacts.

Variables (TARGET : Z) (w h : jsnum) (clock : Z).

Lemma setMilliseconds0_spec (t : Z) :
  setMilliseconds0 t = 1000 * (t / 1000)
  /\ setMilliseconds0 t <= t < setMilliseconds0 t + 1000
  /\ setMilliseconds0 t mod 1000 = 0.
Proof.
  unfold setMilliseconds0. Z.div_mod_to_equations. lia.
Qed.

(** The loop of [buildCountdownGIF], started at index [k] on the canvas as
    it is before frame [k]: it adds frames [k .. k+n-1] and touches no
    setting of the encoder. *)
Lemma frame_loop (n : nat) :
  forall (k : nat) (enc : GIFEncoder),
    for_loop n (Z.of_nat k)
      (fun i '(ctx, encoder) =>
         let frameTime := setMilliseconds0 clock + i * 1000 in
         let ctx := drawCountdownFrame TARGET ctx w h frameTime in
         (ctx, addFrame ctx encoder))
      (canvas_before TARGET w h (setMilliseconds0 clock) k, enc)
    = (canvas_before TARGET w h (setMilliseconds0 clock) (k + n),
       mkEncoder (enc_width enc) (enc_height enc) (enc_started enc)
         (enc_repeat enc) (enc_delay enc) (enc_quality enc)
         (enc_frames enc ++
            map (canvas_after TARGET w h (setMilliseconds0 clock)) (seq k n))
         (enc_finished enc)).
Proof.
  induction n as [| n IH]; intros k enc.
  - cbn [for_loop seq map]. rewrite Nat.add_0_r, app_nil_r.
    destruct enc; reflexivity.
  - cbn [for_loop].
    replace (Z.of_nat k + 1) with (Z.of_nat (S k)) by lia.
    change (drawCountdownFrame TARGET
              (canvas_before TARGET w h (setMilliseconds0 clock) k) w h
              (setMilliseconds0 clock + Z.of_nat k * 1000))
      with (canvas_before TARGET w h (setMilliseconds0 clock) (S k)).
    rewrite IH. cbn [addFrame enc_width enc_height enc_started enc_repeat
                       enc_delay enc_quality enc_frames enc_finished seq map].
    rewrite <- app_assoc. cbn [app].
    replace (S k + n)%nat with (k + S n)%nat by lia.
    reflexivity.
Qed.

Lemma buildCountdownGIF_unfold (seconds : jsnum) :
  buildCountdownGIF TARGET (Some w) (Some h) (Some seconds) clock =
    mkEncoder w h true (Some 0) (Some 1000) (Some 10)
      (map (canvas_after TARGET w h (setMilliseconds0 clock))
         (seq 0 (iterations seconds)))
      true.
Proof.
  unfold buildCountdownGIF. cbn [default].
  pose proof (frame_loop (iterations seconds) 0
                (setQuality 10 (setDelay 1000 (setRepeat 0 (start (new_GIFEncoder w h))))))
    as Hloop.
  change (Z.of_nat 0) with 0 in Hloop.
  change (canvas_before TARGET w h (setMilliseconds0 clock) 0)
    with (createCanvas w h) in Hloop.
  cbv zeta in Hloop |- *. cbn [default from_option]. unfold id.
  rewrite Hloop. reflexivity.
Qed.

End BuilderFacts.


(** ** The GIF endpoint: one handler step *)

Section HandlerFacts.

Variable TARGET : Z.

(** Cache hit: the stored bytes are sent at once and nothing else changes. *)
Lemma handler_hit (st : Server) (a : Arrival) (c : CacheEntry) :
  gifCache st !! key_of a = Some c ->
  date_now a < expiresAt c ->
  get_countdown_gif TARGET a st = respond (rid (request a)) (res_end (buf c)) st.
Proof.
  intros Hc Hfresh. unfold get_countdown_gif.
  change (gifKey _ _ _) with (key_of a). cbv zeta.
  rewrite Hc, Z.gtb_ltb.
  destruct (Z.ltb_spec (date_now a) (expiresAt c)); [reflexivity | lia].
Qed.

(** Miss with a build in flight: the handler waits for that promise. *)
Lemma handler_join (st : Server) (a : Arrival) (p : Promise) :
  cache_miss st (key_of a) (date_now a) ->
  gifInFlight st !! key_of a = Some p ->
  get_countdown_gif TARGET a st =
    enqueue (AwaitInFlight (rid (request a)) (key_of a) p) st.
Proof.
  intros Hmiss Hfl. unfold get_countdown_gif.
  change (gifKey _ _ _) with (key_of a). cbv zeta.
  rewrite Hfl.
  destruct (gifCache st !! key_of a) as [c |] eqn:Hc; [| reflexivity].
  specialize (Hmiss c Hc). rewrite Z.gtb_ltb.
  destruct (Z.ltb_spec (date_now a) (expiresAt c)); [lia | reflexivity].
Qed.

(** Miss with nothing in flight, the build returning. *)
Lemma handler_build_ok (st : Server) (a : Arrival) :
  cache_miss st (key_of a) (date_now a) ->
  gifInFlight st !! key_of a = None ->
  build_throws a = false ->
  let r := rid (request a) in
  let k := key_of a in
  get_countdown_gif TARGET a st =
    mkServer
      (<[k := mkEntry (bytes_of TARGET a) (date_now a + 60000)]> (gifCache st))
      (<[k := Fulfilled (bytes_of TARGET a)]> (gifInFlight st))
      (microtasks st ++ [AwaitBuild r k (Fulfilled (bytes_of TARGET a))])
      (sent st)
      (trace st ++ [BuildStart r k; BuildReturn r k; CacheSet k; InFlightSet k]).
Proof.
  intros Hmiss Hfl Hok r k. unfold get_countdown_gif.
  change (gifKey _ _ _) with (key_of a). cbv zeta.
  rewrite Hfl.
  assert (Hnone : match gifCache st !! key_of a with
                  | Some c => if expiresAt c >? date_now a then Some c else None
                  | None => None
                  end = None).
  { destruct (gifCache st !! key_of a) as [c |] eqn:Hc; [| reflexivity].
    specialize (Hmiss c Hc). rewrite Z.gtb_ltb.
    destruct (Z.ltb_spec (date_now a) (expiresAt c)); [lia | reflexivity]. }
  rewrite Hnone. unfold buildPromise. rewrite Hok.
  unfold enqueue, log, set_gifInFlight, set_gifCache, bytes_of, param_w, param_h, param_s.
  cbn [gifCache gifInFlight microtasks sent trace].
  rewrite <- !app_assoc. reflexivity.
Qed.

(** Miss with nothing in flight, the build throwing. *)
Lemma handler_build_throw (st : Server) (a : Arrival) :
  cache_miss st (key_of a) (date_now a) ->
  gifInFlight st !! key_of a = None ->
  build_throws a = true ->
  let r := rid (request a) in
  let k := key_of a in
  get_countdown_gif TARGET a st =
    mkServer
      (gifCache st)
      (<[k := Rejected]> (gifInFlight st))
      (microtasks st ++ [AwaitBuild r k Rejected])
      (sent st)
      (trace st ++ [BuildStart r k; BuildThrow r k; InFlightSet k]).
Proof.
  intros Hmiss Hfl Hthrow r k. unfold get_countdown_gif.
  change (gifKey _ _ _) with (key_of a). cbv zeta.
  rewrite Hfl.
  assert (Hnone : match gifCache st !! key_of a with
                  | Some c => if expiresAt c >? date_now a then Some c else None
                  | None => None
                  end = None).
  { destruct (gifCache st !! key_of a) as [c |] eqn:Hc; [| reflexivity].
    specialize (Hmiss c Hc). rewrite Z.gtb_ltb.
    destruct (Z.ltb_spec (date_now a) (expiresAt c)); [lia | reflexivity]. }
  rewrite Hnone. unfold buildPromise. rewrite Hthrow.
  unfold enqueue, log, set_gifInFlight.
  cbn [gifCache gifInFlight microtasks sent trace].
  rewrite <- !app_assoc. reflexivity.
Qed.

(** Either there is a fresh entry or the cache misses. *)
Lemma hit_or_miss (st : Server) (key : string) (now : Z) :
  (exists c, gifCache st !! key = Some c /\ now < expiresAt c) \/ cache_miss st key now.
Proof.
  destruct (gifCache st !! key) as [c |] eqn:Hc.
  - destruct (Z_lt_le_dec now (expiresAt c)) as [Hlt | Hle].
    + left. exists c. split; [reflexivity | exact Hlt].
    + right. intros c' Hc'. rewrite Hc in Hc'. injection Hc' as <-. exact Hle.
  - right. intros c' Hc'. rewrite Hc in Hc'. discriminate.
Qed.

End HandlerFacts.

(** ** The GIF endpoint: resumed handlers and the checkpoint *)

Section LoopFacts.

Variable TARGET : Z.

Lemma builds_for_app (k : string) (tr1 tr2 : list Event) :
  builds_for k (tr1 ++ tr2) = (builds_for k tr1 + builds_for k tr2)%nat.
Proof. unfold builds_for. rewrite List.filter_app, length_app. reflexivity. Qed.

Lemma resume_gifCache (j : Job) (st : Server) :
  gifCache (resume j st) = gifCache st.
Proof. destruct j as [r k [b |] | r k [b |]]; reflexivity. Qed.

Lemma resume_microtasks (j : Job) (st : Server) :
  microtasks (resume j st) = microtasks st.
Proof. destruct j as [r k [b |] | r k [b |]]; reflexivity. Qed.

Lemma resume_builds (k : string) (j : Job) (st : Server) :
  builds_for k (trace (resume j st)) = builds_for k (trace st).
Proof.
  destruct j as [r k' [b |] | r k' [b |]]; cbn [resume respond log set_gifInFlight trace];
    rewrite ?builds_for_app; cbn; lia.
Qed.

(** A resumed handler removes at most its own key from [gifInFlight]. *)
Lemma resume_gifInFlight (j : Job) (st : Server) (k : string) :
  is_Some (gifInFlight (resume j st) !! k) -> is_Some (gifInFlight st !! k).
Proof.
  destruct j as [r k' [b |] | r k' [b |]];
    cbn [resume respond log set_gifInFlight gifInFlight]; try tauto;
    rewrite lookup_delete_is_Some; tauto.
Qed.

Lemma resume_owner_deletes (r : nat) (k : string) (p : Promise) (st : Server) :
  gifInFlight (resume (AwaitBuild r k p) st) !! k = None.
Proof.
  destruct p as [b |]; cbn [resume respond log set_gifInFlight gifInFlight];
    apply lookup_delete_eq.
Qed.

Lemma drain_gifCache (jobs : list Job) (st : Server) :
  gifCache (fold_left (fun st j => resume j st) jobs st) = gifCache st.
Proof.
  revert st. induction jobs as [| j jobs IH]; intros st; [reflexivity |].
  cbn [fold_left]. rewrite IH. apply resume_gifCache.
Qed.

Lemma drain_microtasks (jobs : list Job) (st : Server) :
  microtasks (fold_left (fun st j => resume j st) jobs st) = microtasks st.
Proof.
  revert st. induction jobs as [| j jobs IH]; intros st; [reflexivity |].
  cbn [fold_left]. rewrite IH. apply resume_microtasks.
Qed.

Lemma drain_builds (k : string) (jobs : list Job) (st : Server) :
  builds_for k (trace (fold_left (fun st j => resume j st) jobs st)) =
    builds_for k (trace st).
Proof.
  revert st. induction jobs as [| j jobs IH]; intros st; [reflexivity |].
  cbn [fold_left]. rewrite IH. apply resume_builds.
Qed.

(** Once every handler that owns a key has resumed, the map is empty. *)
Lemma drain_in_flight_empty (jobs : list Job) (st : Server) :
  (forall k, is_Some (gifInFlight st !! k) -> exists r p, AwaitBuild r k p ∈ jobs) ->
  gifInFlight (fold_left (fun st j => resume j st) jobs st) = ∅.
Proof.
  revert st. induction jobs as [| j jobs IH]; intros st Hown.
  - cbn [fold_left]. apply map_empty. intros k.
    destruct (gifInFlight st !! k) as [p |] eqn:Hk; [| reflexivity].
    destruct (Hown k) as (r & p' & Hin); [rewrite Hk; eauto |].
    inversion Hin.
  - cbn [fold_left]. apply IH. intros k Hk.
    destruct (Hown k (resume_gifInFlight j st k Hk)) as (r & p & Hin).
    apply elem_of_cons in Hin as [Heq | Hin]; [| eauto].
    subst j. rewrite resume_owner_deletes in Hk. destruct Hk as [? Hk]. discriminate.
Qed.

Lemma checkpoint_gifCache (st : Server) : gifCache (checkpoint st) = gifCache st.
Proof. unfold checkpoint. rewrite drain_gifCache. reflexivity. Qed.

Lemma checkpoint_microtasks (st : Server) : microtasks (checkpoint st) = [].
Proof. unfold checkpoint. rewrite drain_microtasks. reflexivity. Qed.

Lemma checkpoint_builds (k : string) (st : Server) :
  builds_for k (trace (checkpoint st)) = builds_for k (trace st).
Proof. unfold checkpoint. rewrite drain_builds. reflexivity. Qed.

Lemma checkpoint_in_flight_empty (st : Server) :
  in_flight_owned st -> gifInFlight (checkpoint st) = ∅.
Proof. intros Hown. unfold checkpoint. apply drain_in_flight_empty. exact Hown. Qed.

(** The handler keeps every key of [gifInFlight] owned. *)
Lemma handler_owned (a : Arrival) (st : Server) :
  in_flight_owned st -> in_flight_owned (get_countdown_gif TARGET a st).
Proof.
  intros Hown.
  destruct (hit_or_miss st (key_of a) (date_now a)) as [(c & Hc & Hfresh) | Hmiss].
  - rewrite (handler_hit TARGET st a c Hc Hfresh). exact Hown.
  - destruct (gifInFlight st !! key_of a) as [p |] eqn:Hfl.
    + rewrite (handler_join TARGET st a p Hmiss Hfl).
      intros k Hk. destruct (Hown k Hk) as (r & p' & Hin).
      exists r, p'. cbn [enqueue microtasks]. apply elem_of_app. left. exact Hin.
    + assert (Hgen : forall p0 cache tr,
                in_flight_owned
                  (mkServer cache (<[key_of a := p0]> (gifInFlight st))
                     (microtasks st ++ [AwaitBuild (rid (request a)) (key_of a) p0])
                     (sent st) tr)).
      { intros p0 cache tr k Hk. cbn [gifInFlight microtasks] in *.
        destruct (decide (key_of a = k)) as [<- | Hne].
        - exists (rid (request a)), p0. apply elem_of_app. right. apply list_elem_of_singleton.
          reflexivity.
        - rewrite lookup_insert_ne in Hk by exact Hne.
          destruct (Hown k Hk) as (r & p' & Hin).
          exists r, p'. apply elem_of_app. left. exact Hin. }
      destruct (build_throws a) eqn:Hthrow.
      * rewrite (handler_build_throw TARGET st a Hmiss Hfl Hthrow). apply Hgen.
      * rewrite (handler_build_ok TARGET st a Hmiss Hfl Hthrow). apply Hgen.
Qed.

Lemma step_owned (act : Action) (st : Server) :
  in_flight_owned st -> in_flight_owned (step TARGET st act).
Proof.
  intros Hown. destruct act as [a |]; cbn [step].
  - apply handler_owned. exact Hown.
  - intros k Hk. rewrite (checkpoint_in_flight_empty st Hown), lookup_empty in Hk.
    destruct Hk as [? Hk]. discriminate.
Qed.

Lemma exec_owned (acts : list Action) (st : Server) :
  in_flight_owned st -> in_flight_owned (exec TARGET acts st).
Proof.
  revert st. induction acts as [| act acts IH]; intros st Hown; [exact Hown |].
  cbn [exec fold_left]. apply IH, step_owned, Hown.
Qed.

Lemma initial_owned : in_flight_owned initial.
Proof.
  intros k Hk. cbn [initial gifInFlight] in Hk. rewrite lookup_empty in Hk.
  destruct Hk as [? Hk]. discriminate.
Qed.

(** At the start of a turn, with no handler suspended, nothing is
    registered in flight. *)
Lemma quiescent_no_in_flight (st : Server) :
  in_flight_owned st -> microtasks st = [] -> gifInFlight st = ∅.
Proof.
  intros Hown Hq. apply map_empty. intros k.
  destruct (gifInFlight st !! k) as [p |] eqn:Hk; [| reflexivity].
  destruct (Hown k) as (r & p' & Hin); [rewrite Hk; eauto |].
  rewrite Hq in Hin. inversion Hin.
Qed.

End LoopFacts.

(** ** The GIF endpoint: whole turns *)

Section TurnFacts.

Variable TARGET : Z.

Lemma exec_app (acts1 acts2 : list Action) (st : Server) :
  exec TARGET (acts1 ++ acts2) st = exec TARGET acts2 (exec TARGET acts1 st).
Proof. unfold exec. apply fold_left_app. Qed.

Lemma exec_turn_single (a : Arrival) (st : Server) :
  exec TARGET (turn [a]) st = checkpoint (get_countdown_gif TARGET a st).
Proof. reflexivity. Qed.

Lemma cache_miss_same_cache (st st' : Server) (k : string) (now : Z) :
  gifCache st' = gifCache st -> cache_miss st k now -> cache_miss st' k now.
Proof. intros Heq Hmiss c Hc. rewrite Heq in Hc. exact (Hmiss c Hc). Qed.

Lemma cache_miss_later (st : Server) (k : string) (now now' : Z) :
  now <= now' -> cache_miss st k now -> cache_miss st k now'.
Proof. intros Hle Hmiss c Hc. specialize (Hmiss c Hc). lia. Qed.

(** On a miss with nothing in flight the builder is entered, once. *)
Lemma handler_builds_on_miss (a : Arrival) (st : Server) :
  cache_miss st (key_of a) (date_now a) ->
  gifInFlight st !! key_of a = None ->
  builds_for (key_of a) (trace (get_countdown_gif TARGET a st)) =
    S (builds_for (key_of a) (trace st)).
Proof.
  intros Hmiss Hfl. destruct (build_throws a) eqn:Hthrow.
  - rewrite (handler_build_throw TARGET st a Hmiss Hfl Hthrow). cbn [trace].
    rewrite builds_for_app. unfold builds_for at 2. cbn [List.filter is_build_for].
    rewrite bool_decide_eq_true_2 by reflexivity. cbn [length]. lia.
  - rewrite (handler_build_ok TARGET st a Hmiss Hfl Hthrow). cbn [trace].
    rewrite builds_for_app. unfold builds_for at 2. cbn [List.filter is_build_for].
    rewrite bool_decide_eq_true_2 by reflexivity. cbn [length]. lia.
Qed.

(** A request alone in its turn whose build throws: status 500, nothing
    stored, nothing left in flight. *)
Lemma failing_turn (a : Arrival) (st : Server) :
  in_flight_owned st -> microtasks st = [] ->
  cache_miss st (key_of a) (date_now a) ->
  build_throws a = true ->
  let r := rid (request a) in
  let k := key_of a in
  exec TARGET (turn [a]) st =
    mkServer (gifCache st) ∅ [] (sent st ++ [(r, res_status_500_end)])
      (trace st ++ [BuildStart r k; BuildThrow r k; InFlightSet k; InFlightDelete k]).
Proof.
  intros Hown Hq Hmiss Hthrow r k.
  pose proof (quiescent_no_in_flight st Hown Hq) as Hempty.
  assert (Hfl : gifInFlight st !! key_of a = None) by (rewrite Hempty; apply lookup_empty).
  rewrite exec_turn_single, (handler_build_throw TARGET st a Hmiss Hfl Hthrow).
  unfold checkpoint. cbn [microtasks gifCache gifInFlight sent trace].
  rewrite Hq, Hempty. cbn [app fold_left resume].
  unfold log, set_gifInFlight, respond.
  cbn [gifCache gifInFlight microtasks sent trace].
  rewrite delete_insert_eq, delete_empty, <- app_assoc. reflexivity.
Qed.

(** A request alone in its turn whose build returns: the bytes are sent
    and stored for 60 s from the [Date.now()] read before the build. *)
Lemma building_turn (a : Arrival) (st : Server) :
  in_flight_owned st -> microtasks st = [] ->
  cache_miss st (key_of a) (date_now a) ->
  build_throws a = false ->
  let r := rid (request a) in
  let k := key_of a in
  exec TARGET (turn [a]) st =
    mkServer (<[k := mkEntry (bytes_of TARGET a) (date_now a + 60000)]> (gifCache st))
      ∅ [] (sent st ++ [(r, res_end (bytes_of TARGET a))])
      (trace st ++ [BuildStart r k; BuildReturn r k; CacheSet k; InFlightSet k;
                    InFlightDelete k]).
Proof.
  intros Hown Hq Hmiss Hok r k.
  pose proof (quiescent_no_in_flight st Hown Hq) as Hempty.
  assert (Hfl : gifInFlight st !! key_of a = None) by (rewrite Hempty; apply lookup_empty).
  rewrite exec_turn_single, (handler_build_ok TARGET st a Hmiss Hfl Hok).
  unfold checkpoint. cbn [microtasks gifCache gifInFlight sent trace].
  rewrite Hq, Hempty. cbn [app fold_left resume].
  unfold log, set_gifInFlight, respond.
  cbn [gifCache gifInFlight microtasks sent trace].
  rewrite delete_insert_eq, delete_empty, <- app_assoc. reflexivity.
Qed.

(** A request alone in its turn that finds a fresh entry. *)
Lemma cached_turn (a : Arrival) (st : Server) (c : CacheEntry) :
  microtasks st = [] ->
  gifCache st !! key_of a = Some c -> date_now a < expiresAt c ->
  exec TARGET (turn [a]) st = respond (rid (request a)) (res_end (buf c)) st.
Proof.
  intros Hq Hc Hfresh.
  rewrite exec_turn_single, (handler_hit TARGET st a c Hc Hfresh).
  unfold checkpoint, respond. cbn [microtasks gifCache gifInFlight sent trace].
  rewrite Hq. reflexivity.
Qed.

End TurnFacts.

(** ** Cache expiry *)

Section ExpiryFacts.

Variable TARGET : Z.

(** The handler answers from the cache exactly when the entry is fresh. *)
Lemma served_from_cache_iff_fresh (st : Server) (a : Arrival) (c : CacheEntry) :
  gifCache st !! key_of a = Some c ->
  (date_now a < expiresAt c <->
   get_countdown_gif TARGET a st = respond (rid (request a)) (res_end (buf c)) st).
Proof.
  intros Hc. split; [apply handler_hit; exact Hc |].
  intros Hserved.
  destruct (Z_lt_le_dec (date_now a) (expiresAt c)) as [Hlt | Hle]; [exact Hlt |].
  exfalso.
  assert (Hmiss : cache_miss st (key_of a) (date_now a)).
  { intros c' Hc'. rewrite Hc in Hc'. injection Hc' as <-. exact Hle. }
  assert (Hlen : length (microtasks (get_countdown_gif TARGET a st)) =
                 S (length (microtasks st))).
  { destruct (gifInFlight st !! key_of a) as [p |] eqn:Hfl.
    - rewrite (handler_join TARGET st a p Hmiss Hfl).
      cbn [enqueue microtasks]. rewrite length_app. cbn [length]. lia.
    - destruct (build_throws a) eqn:Hthrow.
      + rewrite (handler_build_throw TARGET st a Hmiss Hfl Hthrow).
        cbn [microtasks]. rewrite length_app. cbn [length]. lia.
      + rewrite (handler_build_ok TARGET st a Hmiss Hfl Hthrow).
        cbn [microtasks]. rewrite length_app. cbn [length]. lia. }
  rewrite Hserved in Hlen. cbn [respond microtasks] in Hlen. lia.
Qed.

End ExpiryFacts.

(** C2. A cached GIF is served only while the request instant is strictly
    before its [expiresAt].  After a build at [Date.now() = t] the entry
    expires at [t + 60000]: a request for the same key before that instant
    gets the stored bytes and [buildCountdownGIF] is not entered; a request
    at or after it starts a new build. *)
Theorem cache_entry_served_until_expiry
    (TARGET : Z) (acts : list Action) (a1 a2 : Arrival) :
  let st0 := exec TARGET acts initial in
  microtasks st0 = [] ->
  cache_miss st0 (key_of a1) (date_now a1) ->
  build_throws a1 = false ->
  key_of a2 = key_of a1 ->
  let k := key_of a1 in
  let st1 := exec TARGET (turn [a1]) st0 in
  let st2 := exec TARGET (turn [a2]) st1 in
  gifCache st1 !! k = Some (mkEntry (bytes_of TARGET a1) (date_now a1 + 60000))
  /\ (date_now a2 < date_now a1 + 60000 ->
        sent st2 = sent st1 ++ [(rid (request a2), res_end (bytes_of TARGET a1))]
        /\ trace st2 = trace st1
        /\ builds_for k (trace st2) = builds_for k (trace st1))
  /\ (date_now a1 + 60000 <= date_now a2 ->
        builds_for k (trace st2) = S (builds_for k (trace st1))
        /\ In (BuildStart (rid (request a2)) k) (trace st2))
  /\ (forall (st : Server) (a : Arrival) (c : CacheEntry),
        gifCache st !! key_of a = Some c ->
        (date_now a < expiresAt c <->
         get_countdown_gif TARGET a st = respond (rid (request a)) (res_end (buf c)) st)).
Proof.
  intros st0 Hq Hmiss Hok Hkey k st1 st2.
  assert (Hown0 : in_flight_owned st0) by (apply exec_owned, initial_owned).
  assert (Hst1 : st1 =
    mkServer (<[k := mkEntry (bytes_of TARGET a1) (date_now a1 + 60000)]> (gifCache st0))
      ∅ [] (sent st0 ++ [(rid (request a1), res_end (bytes_of TARGET a1))])
      (trace st0 ++ [BuildStart (rid (request a1)) k; BuildReturn (rid (request a1)) k;
                     CacheSet k; InFlightSet k; InFlightDelete k]))
    by (apply building_turn; assumption).
  assert (Hentry : gifCache st1 !! key_of a2 =
                   Some (mkEntry (bytes_of TARGET a1) (date_now a1 + 60000))).
  { rewrite Hkey, Hst1. cbn [gifCache]. apply lookup_insert_eq. }
  assert (Hq1 : microtasks st1 = []) by (rewrite Hst1; reflexivity).
  split; [pose proof Hentry as Hentry1; rewrite Hkey in Hentry1; exact Hentry1 |].
  split; [| split].
  - intros Hbefore.
    assert (Hst2 : st2 = respond (rid (request a2)) (res_end (bytes_of TARGET a1)) st1).
    { subst st2. rewrite (cached_turn TARGET a2 st1 _ Hq1 Hentry); [reflexivity |].
      cbn [expiresAt]. exact Hbefore. }
    rewrite Hst2. cbn [respond sent trace]. repeat split; reflexivity.
  - intros Hafter.
    assert (Hmiss2 : cache_miss st1 (key_of a2) (date_now a2)).
    { intros c Hc. rewrite Hentry in Hc. injection Hc as <-. cbn [expiresAt]. lia. }
    assert (Hfl1 : gifInFlight st1 !! key_of a2 = None)
      by (rewrite Hst1; cbn [gifInFlight]; apply lookup_empty).
    subst st2. rewrite exec_turn_single, checkpoint_builds.
    split.
    + unfold k. rewrite <- Hkey. apply handler_builds_on_miss; assumption.
    + unfold checkpoint.
      assert (Hin : In (BuildStart (rid (request a2)) k)
                      (trace (get_countdown_gif TARGET a2 st1))).
      { unfold k. rewrite <- Hkey. destruct (build_throws a2) eqn:Hthrow.
        - rewrite (handler_build_throw TARGET st1 a2 Hmiss2 Hfl1 Hthrow). cbn [trace].
          apply in_or_app. right. left. reflexivity.
        - rewrite (handler_build_ok TARGET st1 a2 Hmiss2 Hfl1 Hthrow). cbn [trace].
          apply in_or_app. right. left. reflexivity. }
      revert Hin. generalize (get_countdown_gif TARGET a2 st1). intros s Hin.
      assert (Hkeep : forall jobs s0,
                In (BuildStart (rid (request a2)) k) (trace s0) ->
                In (BuildStart (rid (request a2)) k)
                  (trace (fold_left (fun st j => resume j st) jobs s0))).
      { induction jobs as [| j jobs IH]; intros s0 Hs0; [exact Hs0 |].
        cbn [fold_left]. apply IH.
        destruct j as [r' k' [b |] | r' k' [b |]];
          cbn [resume respond log set_gifInFlight trace];
          try exact Hs0; apply in_or_app; left; exact Hs0. }
      apply Hkeep. exact Hin.
  - intros st a c Hc. apply served_from_cache_iff_fresh. exact Hc.
Qed.

Lemma initial_cache_miss (k : string) (now : Z) : cache_miss initial k now.
Proof. intros c Hc. cbn [initial gifCache] in Hc. rewrite lookup_empty in Hc. discriminate. Qed.

Lemma cache_entry_served_until_expiry_witness :
  let st1 := exec TARGET_default (turn [first_ok]) initial in
  (date_now second_before_expiry < date_now first_ok + 60000
   /\ trace (exec TARGET_default (turn [second_before_expiry]) st1) = trace st1)
  /\ (date_now first_ok + 60000 <= date_now second_at_expiry
      /\ builds_for (key_of first_ok)
           (trace (exec TARGET_default (turn [second_at_expiry]) st1)) =
         S (builds_for (key_of first_ok) (trace st1))).
Proof.
  intros st1.
  assert (Hlt : date_now second_before_expiry < date_now first_ok + 60000)
    by (vm_compute; reflexivity).
  assert (Hle : date_now first_ok + 60000 <= date_now second_at_expiry)
    by (vm_compute; discriminate).
  split; split; try assumption.
  - destruct (cache_entry_served_until_expiry TARGET_default [] first_ok
                second_before_expiry eq_refl
                (initial_cache_miss _ _) eq_refl eq_refl) as (_ & Hbefore & _).
    destruct (Hbefore Hlt) as (_ & Htrace & _). exact Htrace.
  - destruct (cache_entry_served_until_expiry TARGET_default [] first_ok
                second_at_expiry eq_refl
                (initial_cache_miss _ _) eq_refl eq_refl) as (_ & _ & Hafter & _).
    destruct (Hafter Hle) as (Hbuilds & _). exact Hbuilds.
Defined.

(** ** Order of the build and of its registration in [gifInFlight] *)

Section RegistrationFacts.

Variable TARGET : Z.

(** What a handler that builds adds to the trace. *)
Lemma build_trace (st : Server) (a : Arrival) :
  cache_miss st (key_of a) (date_now a) ->
  gifInFlight st !! key_of a = None ->
  let r := rid (request a) in
  let k := key_of a in
  trace (get_countdown_gif TARGET a st) =
    trace st ++
      BuildStart r k ::
      (if build_throws a then [BuildThrow r k] else [BuildReturn r k; CacheSet k]) ++
      [InFlightSet k].
Proof.
  intros Hmiss Hfl r k. destruct (build_throws a) eqn:Hthrow.
  - rewrite (handler_build_throw TARGET st a Hmiss Hfl Hthrow). reflexivity.
  - rewrite (handler_build_ok TARGET st a Hmiss Hfl Hthrow). reflexivity.
Qed.

Lemma builds_atomic_app (tr chunk : list Event) :
  builds_atomic tr -> builds_atomic chunk -> builds_atomic (tr ++ chunk).
Proof.
  intros Htr Hchunk i r k Hi.
  destruct (decide (i < length tr)%nat) as [Hlt | Hge].
  - rewrite lookup_app_l in Hi by exact Hlt.
    destruct (Htr i r k Hi) as [Hnext | Hnext];
      [left | right]; rewrite lookup_app_l; try exact Hnext;
      apply lookup_lt_Some in Hnext; exact Hnext.
  - rewrite lookup_app_r in Hi by lia.
    replace (S i) with (length tr + S (i - length tr))%nat by lia.
    rewrite !lookup_app_r by lia.
    replace (length tr + S (i - length tr) - length tr)%nat
      with (S (i - length tr)) by lia.
    apply Hchunk. exact Hi.
Qed.

Lemma builds_atomic_no_build (chunk : list Event) :
  (forall e, In e chunk -> forall r k, e <> BuildStart r k) -> builds_atomic chunk.
Proof.
  intros Hno i r k Hi. exfalso.
  apply (Hno (BuildStart r k)) with (r := r) (k := k); [| reflexivity].
  apply list_elem_of_In, list_elem_of_lookup. exists i. exact Hi.
Qed.

Lemma handler_atomic (a : Arrival) (st : Server) :
  builds_atomic (trace st) -> builds_atomic (trace (get_countdown_gif TARGET a st)).
Proof.
  intros Hst.
  destruct (hit_or_miss st (key_of a) (date_now a)) as [(c & Hc & Hfresh) | Hmiss].
  - rewrite (handler_hit TARGET st a c Hc Hfresh). exact Hst.
  - destruct (gifInFlight st !! key_of a) as [p |] eqn:Hfl.
    + rewrite (handler_join TARGET st a p Hmiss Hfl). exact Hst.
    + rewrite (build_trace st a Hmiss Hfl). apply builds_atomic_app; [exact Hst |].
      intros i r k Hi. destruct (build_throws a).
      * destruct i as [| [| [| i]]]; cbn in Hi; try discriminate.
        injection Hi as <- <-. right. reflexivity.
      * destruct i as [| [| [| [| i]]]]; cbn in Hi; try discriminate.
        injection Hi as <- <-. left. reflexivity.
Qed.

Lemma resume_atomic (j : Job) (st : Server) :
  builds_atomic (trace st) -> builds_atomic (trace (resume j st)).
Proof.
  intros Hst.
  destruct j as [r k [b |] | r k [b |]]; cbn [resume respond log set_gifInFlight trace];
    try exact Hst;
    (apply builds_atomic_app; [exact Hst |]);
    apply builds_atomic_no_build; intros e [<- | []]; discriminate.
Qed.

Lemma step_atomic (act : Action) (st : Server) :
  builds_atomic (trace st) -> builds_atomic (trace (step TARGET st act)).
Proof.
  intros Hst. destruct act as [a |]; cbn [step]; [apply handler_atomic, Hst |].
  unfold checkpoint.
  assert (Hdrain : forall jobs s, builds_atomic (trace s) ->
            builds_atomic (trace (fold_left (fun st j => resume j st) jobs s))).
  { induction jobs as [| j jobs IH]; intros s Hs; [exact Hs |].
    cbn [fold_left]. apply IH, resume_atomic, Hs. }
  apply Hdrain. exact Hst.
Qed.

(** X19.  In every run, whatever the order of requests and checkpoints, a build
    that has started ends before anything else happens: at most one build
    is under way at any instant. *)
Lemma reachable_builds_atomic (acts : list Action) :
  builds_atomic (trace (exec TARGET acts initial)).
Proof.
  assert (Hgen : forall l st, builds_atomic (trace st) ->
            builds_atomic (trace (exec TARGET l st))).
  { induction l as [| act l IH]; intros st Hst; [exact Hst |].
    cbn [exec fold_left]. apply IH, step_atomic, Hst. }
  apply Hgen. intros i r k Hi. cbn in Hi. discriminate.
Qed.

End RegistrationFacts.

(** C4 (the code departs from it).  The claim: when a new build is started
    for key [k] (cache miss, nothing in flight), the handle is registered in
    [gifInFlight[k]] before the render work of [buildCountdownGIF] begins.
    The code: the async arrow function runs [buildCountdownGIF] to its end
    before the call returns the promise that [gifInFlight.set] registers.
    On every cache miss with nothing in flight the handler's events are, in
    order: the builder is entered, it returns (and the cache is written) or
    it throws, and only then is the key registered. *)
Theorem registration_follows_the_build (TARGET : Z) (st : Server) (a : Arrival) :
  cache_miss st (key_of a) (date_now a) ->
  gifInFlight st !! key_of a = None ->
  let r := rid (request a) in
  let k := key_of a in
  exists finished : list Event,
    (finished = [BuildReturn r k; CacheSet k] \/ finished = [BuildThrow r k])
    /\ trace (get_countdown_gif TARGET a st) =
         trace st ++ BuildStart r k :: finished ++ [InFlightSet k].
Proof.
  intros Hmiss Hfl r k.
  exists (if build_throws a then [BuildThrow r k] else [BuildReturn r k; CacheSet k]).
  split; [destruct (build_throws a); [right | left]; reflexivity |].
  apply build_trace; assumption.
Qed.

Lemma registration_follows_the_build_witness :
  exists finished : list Event,
    (finished = [BuildReturn 1%nat small_key; CacheSet small_key]
     \/ finished = [BuildThrow 1%nat small_key])
    /\ trace (get_countdown_gif TARGET_default first_ok initial) =
         BuildStart 1 small_key :: finished ++ [InFlightSet small_key].
Proof.
  exact (registration_follows_the_build TARGET_default initial first_ok
           (initial_cache_miss _ _) eq_refl).
Defined.

(** The same at the request [first_ok] on a server that has just started. *)
Example first_request_trace :
  trace (get_countdown_gif TARGET_default first_ok initial) =
    [BuildStart 1 small_key; BuildReturn 1 small_key; CacheSet small_key;
     InFlightSet small_key].
Proof. vm_compute. reflexivity. Qed.

(** ** Requests for one key in separate turns *)

Section SingleFlightFacts.

Variable TARGET : Z.

Lemma separate_turns_cons (a : Arrival) (rest : list Arrival) (st : Server) :
  exec TARGET (separate_turns (a :: rest)) st =
    exec TARGET (separate_turns rest) (exec TARGET (turn [a]) st).
Proof. unfold separate_turns. cbn [map concat]. apply exec_app. Qed.

Lemma empty_in_flight_owned (st : Server) :
  gifInFlight st = ∅ -> in_flight_owned st.
Proof.
  intros Hempty k Hk. rewrite Hempty, lookup_empty in Hk.
  destruct Hk as [? Hk]. discriminate.
Qed.

(** Builds that throw: each request in its own turn enters the builder
    again. *)
Lemma failing_separate_turns (k : string) (arrivals : list Arrival) :
  forall st : Server,
    in_flight_owned st -> microtasks st = [] ->
    Forall (fun a => key_of a = k /\ build_throws a = true
                     /\ cache_miss st k (date_now a)) arrivals ->
    let st' := exec TARGET (separate_turns arrivals) st in
    gifCache st' = gifCache st
    /\ gifInFlight st' = ∅
    /\ microtasks st' = []
    /\ sent st' = sent st ++ map (fun a => (rid (request a), res_status_500_end)) arrivals
    /\ builds_for k (trace st') = (builds_for k (trace st) + length arrivals)%nat.
Proof.
  induction arrivals as [| a rest IH]; intros st Hown Hq Hall st'.
  - subst st'. cbn [separate_turns map concat exec fold_left length].
    rewrite app_nil_r, Nat.add_0_r.
    repeat split; [apply quiescent_no_in_flight; assumption | exact Hq].
  - apply Forall_cons in Hall as [(Hkey & Hthrow & Hmiss) Hrest].
    subst st'. rewrite separate_turns_cons.
    rewrite <- Hkey in Hmiss.
    rewrite (failing_turn TARGET a st Hown Hq Hmiss Hthrow).
    match goal with
    | |- context [exec TARGET (separate_turns rest) ?s] => set (st1 := s)
    end.
    destruct (IH st1) as (Hc & Hf & Hm & Hs & Hb).
    + apply empty_in_flight_owned. reflexivity.
    + reflexivity.
    + eapply Forall_impl; [exact Hrest |].
      intros a' (Hk' & Ht' & Hm'). split; [exact Hk' |]. split; [exact Ht' |].
      apply (cache_miss_same_cache st); [reflexivity | exact Hm'].
    + rewrite Hc, Hf, Hm, Hs, Hb. subst st1. cbn [gifCache sent trace map length].
      rewrite builds_for_app, <- app_assoc. cbn [app].
      do 4 (split; [reflexivity |]).
      rewrite Hkey. unfold builds_for at 2. cbn [List.filter is_build_for].
      rewrite bool_decide_eq_true_2 by reflexivity. cbn [length]. lia.
Qed.

(** A build that returns: while its entry is fresh, later requests in their
    own turns are served the same bytes and the builder is not entered
    again. *)
Lemma fresh_separate_turns (k : string) (c : CacheEntry) (arrivals : list Arrival) :
  forall st : Server,
    microtasks st = [] ->
    gifCache st !! k = Some c ->
    Forall (fun a => key_of a = k /\ date_now a < expiresAt c) arrivals ->
    let st' := exec TARGET (separate_turns arrivals) st in
    gifCache st' = gifCache st
    /\ gifInFlight st' = gifInFlight st
    /\ microtasks st' = []
    /\ sent st' = sent st ++ map (fun a => (rid (request a), res_end (buf c))) arrivals
    /\ trace st' = trace st.
Proof.
  induction arrivals as [| a rest IH]; intros st Hq Hc Hall st'.
  - subst st'. cbn [separate_turns map concat exec fold_left].
    rewrite app_nil_r. repeat split. exact Hq.
  - apply Forall_cons in Hall as [(Hkey & Hfresh) Hrest].
    subst st'. rewrite separate_turns_cons.
    rewrite <- Hkey in Hc.
    rewrite (cached_turn TARGET a st c Hq Hc Hfresh).
    rewrite Hkey in Hc.
    destruct (IH (respond (rid (request a)) (res_end (buf c)) st) Hq Hc Hrest)
      as (Hc' & Hf & Hm & Hs & Ht).
    rewrite Hc', Hf, Hm, Hs, Ht. cbn [respond gifCache gifInFlight sent trace map].
    rewrite <- app_assoc. repeat split.
Qed.

(** X20.  [N] requests for one key, first build returning, all within the 60 s
    of the entry: exactly one build, and every request gets its bytes. *)
Lemma one_build_serves_all (a : Arrival) (rest : list Arrival) (st : Server) :
  in_flight_owned st -> microtasks st = [] ->
  cache_miss st (key_of a) (date_now a) ->
  build_throws a = false ->
  Forall (fun a' => key_of a' = key_of a /\ date_now a' < date_now a + 60000) rest ->
  let st' := exec TARGET (separate_turns (a :: rest)) st in
  builds_for (key_of a) (trace st') = S (builds_for (key_of a) (trace st))
  /\ sent st' = sent st ++
       map (fun a' => (rid (request a'), res_end (bytes_of TARGET a))) (a :: rest).
Proof.
  intros Hown Hq Hmiss Hok Hrest st'. subst st'.
  rewrite separate_turns_cons, (building_turn TARGET a st Hown Hq Hmiss Hok).
  match goal with
  | |- context [exec TARGET (separate_turns rest) ?s] => set (st1 := s)
  end.
  destruct (fresh_separate_turns (key_of a)
              (mkEntry (bytes_of TARGET a) (date_now a + 60000)) rest st1)
    as (_ & _ & _ & Hs & Ht).
  - reflexivity.
  - subst st1. cbn [gifCache]. apply lookup_insert_eq.
  - exact Hrest.
  - rewrite Hs, Ht. subst st1. cbn [sent trace map buf].
    rewrite builds_for_app, <- app_assoc. cbn [app]. split; [| reflexivity].
    unfold builds_for at 2. cbn [List.filter is_build_for].
    rewrite bool_decide_eq_true_2 by reflexivity. cbn [length]. lia.
Qed.

End SingleFlightFacts.

(** C1 (the code departs from it).  The claim: under [N] concurrent requests
    with the same clamped [(w, h, s)] exactly one invocation of
    [buildCountdownGIF] executes, and all [N] requests receive the same
    bytes or all observe the same failure.  The code: the key is registered
    in [gifInFlight] only after the build has ended and is removed when the
    handler resumes, at the checkpoint of the same turn; so when the build
    throws, nothing is stored, and each of [N] requests for the key that
    arrive together on separate connections enters the builder again:
    [N] builds, and status 500 for each. *)
Theorem failed_builds_are_repeated
    (TARGET : Z) (acts : list Action) (k : string) (arrivals : list Arrival) :
  let st0 := exec TARGET acts initial in
  microtasks st0 = [] ->
  Forall (fun a => key_of a = k /\ build_throws a = true
                   /\ cache_miss st0 k (date_now a)) arrivals ->
  let st := exec TARGET (separate_turns arrivals) st0 in
  builds_for k (trace st) = (builds_for k (trace st0) + length arrivals)%nat
  /\ sent st = sent st0 ++ map (fun a => (rid (request a), res_status_500_end)) arrivals
  /\ gifCache st = gifCache st0
  /\ gifInFlight st = ∅.
Proof.
  intros st0 Hq Hall st.
  destruct (failing_separate_turns TARGET k arrivals st0) as (Hc & Hf & _ & Hs & Hb);
    try assumption.
  - apply exec_owned, initial_owned.
  - repeat split; assumption.
Qed.

Lemma failed_builds_are_repeated_witness :
  let st := exec TARGET_default (separate_turns [first_failing; second_failing]) initial in
  key_of first_failing = key_of second_failing
  /\ builds_for small_key (trace st) = 2%nat
  /\ sent st = [(1%nat, res_status_500_end); (2%nat, res_status_500_end)].
Proof.
  intros st.
  destruct (failed_builds_are_repeated TARGET_default [] small_key
              [first_failing; second_failing] eq_refl) as (Hb & Hs & _).
  - repeat constructor; apply initial_cache_miss.
  - split; [reflexivity |]. split; [exact Hb | exact Hs].
Defined.

(** ** A build that throws *)

Section FailureFacts.

Variable TARGET : Z.

(** Requests that miss the cache while [k] is registered in flight all wait
    for the registered promise. *)
Lemma joiners_enqueue (k : string) (p : Promise) (joiners : list Arrival) :
  forall st : Server,
    gifInFlight st !! k = Some p ->
    Forall (fun j => key_of j = k /\ cache_miss st k (date_now j)) joiners ->
    exec TARGET (map Handle joiners) st =
      mkServer (gifCache st) (gifInFlight st)
        (microtasks st ++ map (fun j => AwaitInFlight (rid (request j)) k p) joiners)
        (sent st) (trace st).
Proof.
  induction joiners as [| j rest IH]; intros st Hfl Hall.
  - cbn [map exec fold_left]. rewrite app_nil_r. destruct st; reflexivity.
  - apply Forall_cons in Hall as [(Hkey & Hmiss) Hrest].
    cbn [map exec fold_left step].
    rewrite <- Hkey in Hmiss, Hfl.
    rewrite (handler_join TARGET st j p Hmiss Hfl). rewrite Hkey in *.
    change (fold_left (step TARGET) (map Handle rest) ?s)
      with (exec TARGET (map Handle rest) s).
    rewrite IH.
    + cbn [enqueue gifCache gifInFlight microtasks sent trace map].
      rewrite <- app_assoc. reflexivity.
    + exact Hfl.
    + eapply Forall_impl; [exact Hrest |].
      intros j' (Hk' & Hm'). split; [exact Hk' |].
      apply (cache_miss_same_cache st); [reflexivity | exact Hm'].
Qed.

(** Waiters on a rejected promise each answer with status 500. *)
Lemma drain_rejected_joiners (k : string) (joiners : list Arrival) :
  forall st : Server,
    sent (fold_left (fun st j => resume j st)
            (map (fun j => AwaitInFlight (rid (request j)) k Rejected) joiners) st) =
      sent st ++ map (fun j => (rid (request j), res_status_500_end)) joiners.
Proof.
  induction joiners as [| j rest IH]; intros st.
  - cbn [map fold_left]. rewrite app_nil_r. reflexivity.
  - cbn [map fold_left]. rewrite IH.
    cbn [resume respond log set_gifInFlight sent].
    rewrite <- app_assoc. reflexivity.
Qed.

(** The turn of a request whose build throws, with the requests that join
    it in the same turn. *)
Lemma failing_turn_with_joiners (a : Arrival) (joiners : list Arrival) (st : Server) :
  in_flight_owned st -> microtasks st = [] ->
  cache_miss st (key_of a) (date_now a) ->
  build_throws a = true ->
  Forall (fun j => key_of j = key_of a /\ cache_miss st (key_of a) (date_now j)) joiners ->
  let st' := exec TARGET (turn (a :: joiners)) st in
  gifCache st' = gifCache st
  /\ gifInFlight st' = ∅
  /\ microtasks st' = []
  /\ sent st' = sent st ++
       map (fun x => (rid (request x), res_status_500_end)) (a :: joiners)
  /\ builds_for (key_of a) (trace st') = S (builds_for (key_of a) (trace st)).
Proof.
  intros Hown Hq Hmiss Hthrow Hjoin st'.
  pose proof (quiescent_no_in_flight st Hown Hq) as Hempty.
  assert (Hfl : gifInFlight st !! key_of a = None) by (rewrite Hempty; apply lookup_empty).
  assert (Hst' : st' = checkpoint (exec TARGET (map Handle joiners)
                                     (get_countdown_gif TARGET a st))).
  { subst st'. unfold turn. cbn [map]. rewrite <- app_comm_cons.
    change (exec TARGET (Handle a :: ?l) st)
      with (exec TARGET l (get_countdown_gif TARGET a st)).
    rewrite exec_app. reflexivity. }
  assert (Hown' : in_flight_owned (exec TARGET (map Handle joiners)
                                     (get_countdown_gif TARGET a st)))
    by (apply exec_owned, handler_owned, Hown).
  rewrite Hst'. clear Hst' st'.
  split; [| split; [| split; [| split]]].
  - rewrite checkpoint_gifCache.
    rewrite (handler_build_throw TARGET st a Hmiss Hfl Hthrow) in *.
    rewrite joiners_enqueue with (k := key_of a) (p := Rejected).
    + reflexivity.
    + cbn [gifInFlight]. apply lookup_insert_eq.
    + exact Hjoin.
  - apply checkpoint_in_flight_empty. exact Hown'.
  - apply checkpoint_microtasks.
  - rewrite (handler_build_throw TARGET st a Hmiss Hfl Hthrow) in *.
    rewrite joiners_enqueue with (k := key_of a) (p := Rejected);
      [| cbn [gifInFlight]; apply lookup_insert_eq | exact Hjoin].
    unfold checkpoint. cbn [gifCache gifInFlight microtasks sent trace].
    rewrite Hq. cbn [app fold_left]. rewrite drain_rejected_joiners.
    cbn [resume respond log set_gifInFlight sent map].
    rewrite <- app_assoc. reflexivity.
  - rewrite checkpoint_builds.
    rewrite (handler_build_throw TARGET st a Hmiss Hfl Hthrow) in *.
    rewrite joiners_enqueue with (k := key_of a) (p := Rejected);
      [| cbn [gifInFlight]; apply lookup_insert_eq | exact Hjoin].
    cbn [trace]. rewrite builds_for_app.
    unfold builds_for at 2. cbn [List.filter is_build_for].
    rewrite bool_decide_eq_true_2 by reflexivity. cbn [length]. lia.
Qed.

(** After any run that ends in a checkpoint, build returned or thrown,
    nothing is registered in flight. *)
Lemma in_flight_empty_after_checkpoint (acts : list Action) :
  gifInFlight (exec TARGET (acts ++ [Checkpoint]) initial) = ∅.
Proof.
  rewrite exec_app. cbn [exec fold_left step].
  apply checkpoint_in_flight_empty, exec_owned, initial_owned.
Qed.

End FailureFacts.

(** C3 (as amended).  If the build for key [k] throws then, once the turn of
    the request is over: [gifCache] is exactly as it was, so it holds no
    unexpired entry for [k] (an entry for [k] that had already expired stays
    in the map) and the entries of other keys are unchanged; [gifInFlight]
    holds no entry, for [k] or any other key, as after every checkpoint,
    build returned or thrown; the request and every request that awaited
    that build answer with status 500; and a later request for [k] starts a
    fresh build. *)
Theorem failed_build_leaves_maps_clean
    (TARGET : Z) (acts : list Action) (a : Arrival) (joiners : list Arrival)
    (a' : Arrival) :
  let st0 := exec TARGET acts initial in
  let k := key_of a in
  microtasks st0 = [] ->
  cache_miss st0 k (date_now a) ->
  build_throws a = true ->
  Forall (fun j => key_of j = k /\ cache_miss st0 k (date_now j)) joiners ->
  key_of a' = k ->
  date_now a <= date_now a' ->
  let st1 := exec TARGET (turn (a :: joiners)) st0 in
  gifCache st1 = gifCache st0
  /\ cache_miss st1 k (date_now a)
  /\ gifInFlight st1 = ∅
  /\ gifInFlight st0 = ∅
  /\ (forall acts', gifInFlight (exec TARGET (acts' ++ [Checkpoint]) initial) = ∅)
  /\ sent st1 = sent st0 ++
       map (fun x => (rid (request x), res_status_500_end)) (a :: joiners)
  /\ builds_for k (trace st1) = S (builds_for k (trace st0))
  /\ builds_for k (trace (get_countdown_gif TARGET a' st1)) = S (builds_for k (trace st1)).
Proof.
  intros st0 k Hq Hmiss Hthrow Hjoin Hkey Hlater st1. subst k.
  assert (Hown0 : in_flight_owned st0) by (apply exec_owned, initial_owned).
  destruct (failing_turn_with_joiners TARGET a joiners st0 Hown0 Hq Hmiss Hthrow Hjoin)
    as (Hc & Hf & Hm & Hs & Hb).
  fold st1 in Hc, Hf, Hm, Hs, Hb.
  assert (Hmiss1 : cache_miss st1 (key_of a) (date_now a))
    by (apply (cache_miss_same_cache st0); assumption).
  split; [exact Hc |]. split; [exact Hmiss1 |]. split; [exact Hf |].
  split; [apply quiescent_no_in_flight; assumption |].
  split; [intros acts'; apply in_flight_empty_after_checkpoint |].
  split; [exact Hs |]. split; [exact Hb |].
  rewrite <- Hkey. apply handler_builds_on_miss.
  - rewrite Hkey. apply (cache_miss_later st1 (key_of a) (date_now a)); assumption.
  - rewrite Hf. apply lookup_empty.
Qed.

Lemma failed_build_leaves_maps_clean_witness :
  let st0 := exec TARGET_default (turn [first_ok]) initial in
  let st1 := exec TARGET_default (turn [later_failing; later_joiner]) st0 in
  gifCache st1 = gifCache st0
  /\ gifInFlight st1 = ∅
  /\ sent st1 = sent st0 ++ [(2%nat, res_status_500_end); (3%nat, res_status_500_end)]
  /\ builds_for small_key (trace st1) = S (builds_for small_key (trace st0))
  /\ builds_for small_key (trace (get_countdown_gif TARGET_default later_joiner st1)) =
       S (builds_for small_key (trace st1)).
Proof.
  intros st0 st1.
  assert (Hmiss : forall now, t0 + 60000 <= now ->
            cache_miss (exec TARGET_default (turn [first_ok]) initial)
              (key_of later_failing) now).
  { intros now Hnow.
    rewrite (building_turn TARGET_default first_ok initial initial_owned eq_refl
               (initial_cache_miss _ _) eq_refl).
    intros c Hc. cbn [gifCache] in Hc.
    change (key_of later_failing) with (key_of first_ok) in Hc.
    rewrite lookup_insert_eq in Hc. injection Hc as <-. cbn [expiresAt].
    exact Hnow. }
  assert (H0 : t0 + 60000 <= date_now later_failing) by (vm_compute; discriminate).
  assert (H1 : t0 + 60000 <= date_now later_joiner) by (vm_compute; discriminate).
  assert (H2 : date_now later_failing <= date_now later_joiner)
    by (vm_compute; discriminate).
  destruct (failed_build_leaves_maps_clean TARGET_default (turn [first_ok])
              later_failing [later_joiner] later_joiner eq_refl (Hmiss _ H0) eq_refl
              ltac:(repeat constructor; apply Hmiss, H1) eq_refl H2)
    as (Hc & _ & Hf & _ & _ & Hs & Hb & Hnext).
  repeat split; assumption.
Defined.

(** C3 as first stated fails: after a build for [small_key] that returned at
    [t0], a build for the same key that throws at [t0 + 60000] leaves the
    expired entry in [gifCache]. *)
Lemma failed_build_keeps_expired_entry :
  let st := exec TARGET_default (turn [first_ok] ++ turn [later_failing]) initial in
  build_throws later_failing = true
  /\ key_of later_failing = small_key
  /\ In (BuildThrow 2 small_key) (trace st)
  /\ (exists c, gifCache st !! small_key = Some c /\ expiresAt c = t0 + 60000)
  /\ gifCache st !! small_key <> None.
Proof.
  intros st.
  assert (Hst : gifCache st = gifCache (exec TARGET_default (turn [first_ok]) initial)).
  { subst st. rewrite exec_app.
    rewrite (building_turn TARGET_default first_ok initial initial_owned eq_refl
               (initial_cache_miss _ _) eq_refl).
    rewrite failing_turn; [reflexivity | apply empty_in_flight_owned; reflexivity
                          | reflexivity | | reflexivity].
    intros c Hc. cbn [gifCache] in Hc.
    change (key_of later_failing) with (key_of first_ok) in Hc.
    rewrite lookup_insert_eq in Hc. injection Hc as <-. cbn [expiresAt].
    vm_compute. discriminate. }
  assert (Hentry : gifCache st !! small_key =
                   Some (mkEntry (bytes_of TARGET_default first_ok) (t0 + 60000))).
  { rewrite Hst.
    rewrite (building_turn TARGET_default first_ok initial initial_owned eq_refl
               (initial_cache_miss _ _) eq_refl).
    cbn [gifCache]. change (key_of first_ok) with small_key.
    apply lookup_insert_eq. }
  split; [reflexivity |]. split; [reflexivity |].
  split; [vm_compute; tauto |].
  split; [eexists; split; [exact Hentry | reflexivity] |].
  rewrite Hentry. discriminate.
Qed.

(** ** Request parameters *)

Section ParameterFacts.

(** A parameter that [parseInt] reads as an integer is clamped into
    [[lo, hi]]. *)
Lemma clamp_param_in_range (v : qvalue) (dflt : string) (lo hi z : Z) :
  lo <= hi ->
  parseInt (or_default v dflt) = Int z ->
  clamp_param v dflt lo hi = Int (Z.min (Z.max z lo) hi)
  /\ lo <= Z.min (Z.max z lo) hi <= hi.
Proof.
  intros Hlohi Hparse. unfold clamp_param. rewrite Hparse. cbn [Math_max Math_min].
  split; [reflexivity | lia].
Qed.

(** One that [parseInt] cannot read stays NaN through [Math.max] and
    [Math.min]. *)
Lemma clamp_param_NaN (v : qvalue) (dflt : string) (lo hi : Z) :
  parseInt (or_default v dflt) = NaN -> clamp_param v dflt lo hi = NaN.
Proof. intros Hparse. unfold clamp_param. rewrite Hparse. reflexivity. Qed.

(** The examples of the spec, and the defaults. *)
Example clamp_param_examples :
  clamp_param (qstring "50") "640" 320 1200 = Int 320
  /\ clamp_param (qstring "9999") "640" 320 1200 = Int 1200
  /\ clamp_param (qstring "5") "60" 10 120 = Int 10
  /\ clamp_param (qstring "500") "60" 10 120 = Int 120
  /\ clamp_param (qstring "100") "200" 140 600 = Int 140
  /\ clamp_param (qstring "700") "200" 140 600 = Int 600
  /\ clamp_param undefined "640" 320 1200 = Int 640
  /\ clamp_param undefined "200" 140 600 = Int 200
  /\ clamp_param undefined "60" 10 120 = Int 60
  /\ clamp_param (qstring "") "640" 320 1200 = Int 640.
Proof. repeat split; vm_compute; reflexivity. Qed.

End ParameterFacts.

(** C7 (the code departs from it).  The claim: for every query string the
    parameters are recovered by clamping, [w] into [[320, 1200]], [h] into
    [[140, 600]] and [s] into [[10, 120]].  The code: for [?w=abc],
    [parseInt] returns NaN, which [Math.max] and [Math.min] pass on, so [w]
    is NaN, in no range, and the cache key is built from it; likewise for
    [h] and [s]. *)
Theorem non_numeric_parameter_is_not_clamped :
  param_w non_numeric_width = NaN
  /\ (forall z, 320 <= z <= 1200 -> param_w non_numeric_width <> Int z)
  /\ key_of non_numeric_width = "NaNx200_s60"
  /\ clamp_param (qstring "abc") "200" 140 600 = NaN
  /\ clamp_param (qstring "abc") "60" 10 120 = NaN.
Proof.
  split; [vm_compute; reflexivity |].
  split; [intros z _; vm_compute; discriminate |].
  repeat split; vm_compute; reflexivity.
Qed.

(** * Further properties *)

(** ** The countdown as a number of seconds *)

Section CountdownFacts.

Variable TARGET : Z.

(** The fields stand for the whole seconds to the deadline, never less
    than zero. *)
Lemma seconds_left_value (now : Z) :
  seconds_left (getRemainingParts TARGET now) = Z.max 0 ((TARGET - now) / 1000).
Proof.
  unfold seconds_left.
  destruct (Z_le_gt_dec (TARGET - now) 0) as [Hle | Hgt].
  - rewrite getRemainingParts_elapsed by exact Hle. cbn [days hours mins secs].
    assert ((TARGET - now) / 1000 <= 0) by (Z.div_mod_to_equations; lia). lia.
  - rewrite getRemainingParts_running by lia. cbn [days hours mins secs].
    assert (0 <= (TARGET - now) / 1000) by (apply Z.div_pos; lia).
    generalize dependent ((TARGET - now) / 1000). intros total Htotal.
    Z.div_mod_to_equations. lia.
Qed.

(** The four fields are a function of the seconds they stand for. *)
Lemma fields_of_seconds_left (now : Z) :
  let r := getRemainingParts TARGET now in
  let t := seconds_left r in
  days r = t / 86400 /\ hours r = t mod 86400 / 3600
  /\ mins r = t mod 3600 / 60 /\ secs r = t mod 60.
Proof.
  intros r t. subst t r. rewrite seconds_left_value.
  destruct (Z_le_gt_dec (TARGET - now) 0) as [Hle | Hgt].
  - rewrite getRemainingParts_elapsed by exact Hle. cbn [days hours mins secs].
    assert ((TARGET - now) / 1000 <= 0) by (Z.div_mod_to_equations; lia).
    rewrite Z.max_l by lia. repeat split; reflexivity.
  - rewrite getRemainingParts_running by lia. cbn [days hours mins secs].
    assert (0 <= (TARGET - now) / 1000) by (apply Z.div_pos; lia).
    rewrite Z.max_r by lia. repeat split; reflexivity.
Qed.

End CountdownFacts.

(** X1.  One second later the countdown shows exactly one second less, until it
    shows zero, where it stays. *)
Theorem countdown_ticks_down_by_one (TARGET now : Z) :
  seconds_left (getRemainingParts TARGET (now + 1000)) =
    Z.max 0 (seconds_left (getRemainingParts TARGET now) - 1).
Proof.
  rewrite !seconds_left_value.
  replace (TARGET - (now + 1000)) with ((TARGET - now) + (-1) * 1000) by lia.
  rewrite Z.div_add by lia. lia.
Qed.

(** X2.  The countdown never goes up: a later instant shows no more seconds, and
    once [done] is set it stays set. *)
Theorem countdown_never_goes_up (TARGET now now' : Z) :
  now <= now' ->
  seconds_left (getRemainingParts TARGET now') <= seconds_left (getRemainingParts TARGET now)
  /\ (done (getRemainingParts TARGET now) = true ->
      done (getRemainingParts TARGET now') = true)
  /\ (done (getRemainingParts TARGET now) = true <-> TARGET <= now).
Proof.
  intros Hle. rewrite !seconds_left_value.
  split; [| split].
  - assert ((TARGET - now') / 1000 <= (TARGET - now) / 1000)
      by (apply Z.div_le_mono; lia).
    lia.
  - destruct (Z_le_gt_dec (TARGET - now) 0) as [H0 | H0].
    + intros _. rewrite getRemainingParts_elapsed by lia. reflexivity.
    + rewrite (getRemainingParts_running TARGET now) by lia. cbn [done]. discriminate.
  - destruct (Z_le_gt_dec (TARGET - now) 0) as [H0 | H0].
    + rewrite getRemainingParts_elapsed by lia. cbn [done]. split; [lia | reflexivity].
    + rewrite (getRemainingParts_running TARGET now) by lia. cbn [done].
      split; [discriminate | lia].
Qed.

Lemma countdown_never_goes_up_witness :
  TARGET_default - 5000 <= TARGET_default - 1
  /\ seconds_left (getRemainingParts TARGET_default (TARGET_default - 1))
     <= seconds_left (getRemainingParts TARGET_default (TARGET_default - 5000)).
Proof.
  assert (H : TARGET_default - 5000 <= TARGET_default - 1) by (vm_compute; discriminate).
  split; [exact H |].
  exact (proj1 (countdown_never_goes_up TARGET_default _ _ H)).
Defined.

(** X3.  The animation starts from the wall clock with its milliseconds cleared,
    the still image from the wall clock itself: at the same clock reading
    the first frame of the animation shows the same number of seconds as the
    still image or one second more, never less. *)
Theorem first_frame_at_most_one_second_ahead
    (TARGET : Z) (w h seconds : jsnum) (clock : Z) :
  let still := getRemainingParts TARGET clock in
  let frame0 := getRemainingParts TARGET (setMilliseconds0 clock) in
  let digits := fun r => [pad2 (days r); pad2 (hours r); pad2 (mins r); pad2 (secs r)] in
  let labels := ["DAYS"; "HOURS"; "MINUTES"; "SECONDS"] in
  texts (drawn (drawCountdownPNG TARGET (Some w) (Some h) clock)) =
    "TIME TO NEXT AUCTION" :: digits still ++ labels
  /\ (forall c,
        enc_frames (buildCountdownGIF TARGET (Some w) (Some h) (Some seconds) clock) !! 0%nat
          = Some c ->
        texts (drawn c) = "TIME TO NEXT AUCTION" :: digits frame0 ++ labels)
  /\ seconds_left still <= seconds_left frame0 <= seconds_left still + 1
  /\ (clock mod 1000 = 0 -> frame0 = still).
Proof.
  intros still frame0 digits labels.
  split; [| split; [| split]].
  - unfold drawCountdownPNG. cbn [default from_option]. unfold id.
    rewrite drawCountdownFrame_texts. reflexivity.
  - intros c Hc. rewrite buildCountdownGIF_unfold in Hc. cbn [enc_frames] in Hc.
    destruct (iterations seconds) as [| n]; [discriminate |].
    cbn [seq map] in Hc. injection Hc as <-.
    unfold canvas_after. cbn [canvas_before].
    rewrite drawCountdownFrame_texts.
    change (Z.of_nat 0) with 0. rewrite Z.mul_0_l, Z.add_0_r. reflexivity.
  - subst still frame0. rewrite !seconds_left_value.
    unfold setMilliseconds0. Z.div_mod_to_equations. lia.
  - intros Hz. subst still frame0. unfold setMilliseconds0.
    rewrite Hz, Z.sub_0_r. reflexivity.
Qed.

(** ** What a frame draws *)

Section FrameFacts.

Variable TARGET : Z.

(** The frame reads the instant through the four fields only. *)
Lemma drawCountdownFrame_fields (ctx : Canvas) (w h : jsnum) (now1 now2 : Z) :
  days (getRemainingParts TARGET now1) = days (getRemainingParts TARGET now2) ->
  hours (getRemainingParts TARGET now1) = hours (getRemainingParts TARGET now2) ->
  mins (getRemainingParts TARGET now1) = mins (getRemainingParts TARGET now2) ->
  secs (getRemainingParts TARGET now1) = secs (getRemainingParts TARGET now2) ->
  drawCountdownFrame TARGET ctx w h now1 = drawCountdownFrame TARGET ctx w h now2.
Proof.
  intros Hd Hh Hm Hs. unfold drawCountdownFrame. cbv zeta.
  rewrite Hd, Hh, Hm, Hs. reflexivity.
Qed.

End FrameFacts.

(** X4.  A frame takes nothing from what the canvas held: it adds the same calls
    whatever was drawn before, and the first of them paints the whole canvas
    white, so a canvas reused from frame to frame shows the last frame
    only. *)
Theorem frame_drawn_independently_of_canvas (TARGET : Z) (w h : jsnum) (now : Z) :
  exists ops : list ctxop,
    (forall ctx : Canvas,
       drawCountdownFrame TARGET ctx w h now =
         mkCanvas (cwidth ctx) (cheight ctx) (drawn ctx ++ ops))
    /\ firstn 2 ops =
         [set_fillStyle "#ffffff"; fillRect (Num (Int 0)) (Num (Int 0)) (Num w) (Num h)]
    /\ length (texts ops) = 9%nat.
Proof.
  exists (drawn (drawCountdownFrame TARGET (mkCanvas w h []) w h now)).
  split; [intros ctx; apply drawCountdownFrame_appends |].
  split.
  - unfold drawCountdownFrame.
    change (Z.to_nat 4) with 4%nat.
    generalize (getRemainingParts TARGET now); intros r.
    cbn [for_loop]. rewrite !emit_emit. unfold emit. cbn [drawn app firstn]. reflexivity.
  - pose proof (drawCountdownFrame_texts TARGET (mkCanvas w h []) w h now) as Ht.
    cbv zeta in Ht. rewrite Ht. reflexivity.
Qed.

(** X5.  Two instants that leave the same number of whole seconds give the same
    frame; in particular every instant from the last second before the
    deadline on gives the frame of the deadline itself, all zeros: the
    [done] flag is not drawn. *)
Theorem frame_depends_on_whole_seconds_only
    (TARGET : Z) (ctx : Canvas) (w h : jsnum) (now1 now2 : Z) :
  seconds_left (getRemainingParts TARGET now1) =
    seconds_left (getRemainingParts TARGET now2) ->
  drawCountdownFrame TARGET ctx w h now1 = drawCountdownFrame TARGET ctx w h now2.
Proof.
  intros Hsame.
  destruct (fields_of_seconds_left TARGET now1) as (Hd1 & Hh1 & Hm1 & Hs1).
  destruct (fields_of_seconds_left TARGET now2) as (Hd2 & Hh2 & Hm2 & Hs2).
  apply drawCountdownFrame_fields; congruence.
Qed.

Lemma frame_depends_on_whole_seconds_only_witness :
  done (getRemainingParts TARGET_default (TARGET_default - 1)) = false
  /\ done (getRemainingParts TARGET_default (TARGET_default + 5)) = true
  /\ drawCountdownFrame TARGET_default (createCanvas (Int 320) (Int 140)) (Int 320) (Int 140)
       (TARGET_default - 1) =
     drawCountdownFrame TARGET_default (createCanvas (Int 320) (Int 140)) (Int 320) (Int 140)
       (TARGET_default + 5).
Proof.
  split; [reflexivity |]. split; [reflexivity |].
  apply frame_depends_on_whole_seconds_only. reflexivity.
Defined.

(** X6.  The first draft of the still image and the present one make the same
    calls, with the same texts and coordinates, but for the border: the
    draft insets the rectangle by half the line width, the present one
    strokes the rectangle of the whole canvas. *)
Theorem first_draft_differs_in_border_only
    (TARGET : Z) (width height : option jsnum) (clock : Z) :
  let old := FirstDraft.drawCountdownPNG TARGET width height clock in
  let new := Still.drawCountdownPNG TARGET width height clock in
  let w := default (Int 640) width in
  let h := default (Int 200) height in
  drawn new = map (flush_border w h) (drawn old)
  /\ texts (drawn new) = texts (drawn old)
  /\ cwidth new = cwidth old /\ cheight new = cheight old
  /\ In (strokeRect (Div (Max (Num (Int 2)) (Round (Mul (Num w) (Dec 4 3)))) (Num (Int 2)))
           (Div (Max (Num (Int 2)) (Round (Mul (Num w) (Dec 4 3)))) (Num (Int 2)))
           (Sub (Num w) (Max (Num (Int 2)) (Round (Mul (Num w) (Dec 4 3)))))
           (Sub (Num h) (Max (Num (Int 2)) (Round (Mul (Num w) (Dec 4 3))))))
        (drawn old).
Proof.
  intros old new w h. subst old new.
  unfold FirstDraft.drawCountdownPNG, Still.drawCountdownPNG, drawCountdownFrame.
  fold w h. cbv zeta.
  change (Z.to_nat 4) with 4%nat.
  generalize (getRemainingParts TARGET clock); intros r.
  generalize (pad2 (days r)) (pad2 (hours r)) (pad2 (mins r)) (pad2 (secs r)).
  intros d hh m sc.
  cbn [for_loop]. rewrite !emit_emit. unfold emit, createCanvas.
  cbn [drawn cwidth cheight app map flush_border].
  split; [reflexivity |]. split; [reflexivity |].
  split; [reflexivity |]. split; [reflexivity |].
  do 4 right. left. reflexivity.
Qed.

(** ** Numbers as text: [String], [parseInt], [pad2] and [gifKey] *)

Section NumeralFacts.

Lemma pretty_N_char_digit (d : N) :
  (d < 10)%N -> digit_value (pretty_N_char d) = Some (Z.of_N d).
Proof.
  intros Hd.
  assert (Hcases : (d = 0 \/ d = 1 \/ d = 2 \/ d = 3 \/ d = 4 \/ d = 5 \/ d = 6
                    \/ d = 7 \/ d = 8 \/ d = 9)%N) by lia.
  repeat (destruct Hcases as [-> | Hcases]; [vm_compute; reflexivity |]).
  subst d. vm_compute. reflexivity.
Qed.

(** What [parse_digits] makes of a printed natural number followed by [s]:
    the digits are read back and reading goes on in [s]. *)
Lemma parse_digits_pretty_N_go (x : N) :
  exists m : Z, forall (s : string) (acc : Z),
    parse_digits (pretty_N_go x s) acc = parse_digits s (acc * m + Z.of_N x).
Proof.
  induction (N.lt_wf_0 x) as [x _ IH].
  destruct (decide (0 < x)%N) as [Hpos | Hzero].
  - destruct (IH (x `div` 10)%N) as (m & Hm); [apply N.div_lt; lia |].
    exists (10 * m). intros s acc.
    rewrite pretty_N_go_step by exact Hpos. rewrite Hm. cbn [parse_digits].
    rewrite pretty_N_char_digit by (apply N.mod_lt; lia).
    f_equal. rewrite N2Z.inj_div, N2Z.inj_mod. change (Z.of_N 10) with 10.
    pose proof (Z.div_mod (Z.of_N x) 10 ltac:(lia)) as Hdm.
    set (q := Z.of_N x `div` 10) in *. set (r := Z.of_N x `mod` 10) in *.
    rewrite Hdm. ring.
  - replace x with 0%N by lia. exists 1. intros s acc.
    rewrite pretty_N_go_0. f_equal. change (Z.of_N 0) with 0. lia.
Qed.

(** A printed positive number starts with a digit. *)
Lemma pretty_N_go_head (x : N) (s : string) :
  (0 < x)%N ->
  exists c rest v, pretty_N_go x s = String c rest /\ digit_value c = Some v.
Proof.
  revert s. induction (N.lt_wf_0 x) as [x _ IH]. intros s Hpos.
  rewrite pretty_N_go_step by exact Hpos.
  destruct (decide (0 < x `div` 10)%N) as [Hdiv | Hdiv].
  - apply IH; [apply N.div_lt; lia | exact Hdiv].
  - apply N.nlt_ge, N.le_0_r in Hdiv. rewrite Hdiv, pretty_N_go_0.
    eexists _, _, _. split; [reflexivity |].
    apply pretty_N_char_digit, N.mod_lt. lia.
Qed.

(** Printing before [s] is printing, then [s]. *)
Lemma pretty_N_go_append (x : N) (s : string) :
  pretty_N_go x s = pretty_N_go x "" +:+ s.
Proof.
  assert (Hgen : forall t, pretty_N_go x (t +:+ s) = pretty_N_go x t +:+ s).
  { induction (N.lt_wf_0 x) as [x _ IH]. intros t.
    destruct (decide (0 < x)%N) as [Hpos | Hzero].
    - rewrite (pretty_N_go_step x (t +:+ s)), (pretty_N_go_step x t) by exact Hpos.
      apply (IH (x `div` 10)%N ltac:(apply N.div_lt; lia)
               (String (pretty_N_char (x `mod` 10)) t)).
    - replace x with 0%N by lia. rewrite !pretty_N_go_0. reflexivity. }
  exact (Hgen "").
Qed.

(** [parseInt] on a string that starts with a digit, or with a minus sign
    and a digit. *)
Lemma parseInt_digit_head (c : ascii) (rest : string) (v : Z) :
  digit_value c = Some v ->
  parseInt (String c rest) = Int (1 * parse_digits (String c rest) 0)
  /\ parseInt (String "-" (String c rest)) = Int (-1 * parse_digits (String c rest) 0).
Proof.
  intros Hv.
  destruct c as [[] [] [] [] [] [] [] []]; vm_compute in Hv; try discriminate;
    split; reflexivity.
Qed.

Lemma String_of_Z_nonneg (z : Z) :
  0 <= z ->
  exists c rest v,
    String_of_Z z = String c rest /\ digit_value c = Some v
    /\ forall s acc, parse_digits (String_of_Z z +:+ s) acc
                     = parse_digits s (parse_digits (String_of_Z z) acc)
    /\ parse_digits (String_of_Z z) 0 = z.
Proof.
  intros Hz. destruct z as [| p | p]; [| | lia].
  - exists "0"%char, EmptyString, 0. repeat split.
  - unfold String_of_Z, pretty, pretty_Z, pretty, pretty_positive, pretty, pretty_N.
    destruct (decide (N.pos p = 0%N)) as [? | _]; [lia |].
    destruct (pretty_N_go_head (N.pos p) "" ltac:(lia)) as (c & rest & v & Heq & Hv).
    destruct (parse_digits_pretty_N_go (N.pos p)) as (m & Hm).
    exists c, rest, v. split; [exact Heq |]. split; [exact Hv |].
    intros s acc. split.
    + rewrite <- pretty_N_go_append, !Hm. reflexivity.
    + rewrite Hm. cbn [parse_digits]. change (Z.of_N (N.pos p)) with (Z.pos p). lia.
Qed.

End NumeralFacts.

Section ReadBackFacts.

Lemma parse_digits_stop (suffix : string) (v : Z) :
  match suffix with
  | String c _ => digit_value c = None
  | EmptyString => True
  end ->
  parse_digits suffix v = v.
Proof.
  destruct suffix as [| c rest]; [reflexivity |].
  intros Hc. cbn [parse_digits]. rewrite Hc. reflexivity.
Qed.

Lemma parseInt_String_of_Z_append (z : Z) (suffix : string) :
  match suffix with
  | String c _ => digit_value c = None
  | EmptyString => True
  end ->
  parseInt (String_of_Z z +:+ suffix) = Int z
  /\ exists c rest, String_of_Z z +:+ suffix = String c rest.
Proof.
  intros Hstop.
  assert (Hnonneg : forall n, 0 <= n ->
            parseInt (String_of_Z n +:+ suffix) = Int n
            /\ parseInt (String "-" (String_of_Z n +:+ suffix)) = Int (- n)
            /\ exists c rest, String_of_Z n +:+ suffix = String c rest).
  { intros n Hn.
    destruct (String_of_Z_nonneg n Hn) as (c & rest & v & Heq & Hv & Hparse).
    destruct (Hparse suffix 0) as (Happ & Hval).
    assert (Hdigits : parse_digits (String_of_Z n +:+ suffix) 0 = n)
      by (rewrite Happ, Hval; apply parse_digits_stop, Hstop).
    rewrite Heq in *.
    change (String c rest +:+ suffix) with (String c (rest +:+ suffix)) in *.
    destruct (parseInt_digit_head c (rest +:+ suffix) v Hv) as (Hplus & Hminus).
    rewrite Hplus, Hminus, Hdigits.
    split; [f_equal; lia |]. split; [f_equal; lia |]. eauto. }
  destruct z as [| p | p].
  - destruct (Hnonneg 0 ltac:(lia)) as (H0 & _ & Hne). split; assumption.
  - destruct (Hnonneg (Z.pos p) ltac:(lia)) as (Hp & _ & Hne). split; assumption.
  - destruct (Hnonneg (Z.pos p) ltac:(lia)) as (_ & Hm & _).
    change (String_of_Z (Z.neg p) +:+ suffix)
      with (String "-" (String_of_Z (Z.pos p) +:+ suffix)).
    split; [exact Hm | eauto].
Qed.

End ReadBackFacts.

(** X7.  [parseInt] reads back what [String] prints: a query value that is the
    decimal numeral of an integer [z], with or without text after it that
    does not start with a digit (as in [w=400px]), is clamped to
    [min(max(z, lo), hi)], for bounds that a double holds exactly; and
    [parseInt] reads it as [z] itself when [z] is at most 2^53 in
    magnitude, where a double holds every integer. *)
Theorem numeric_parameter_read_back (z lo hi : Z) (suffix dflt : string) :
  Z.abs lo <= 2 ^ 53 ->
  Z.abs hi <= 2 ^ 53 ->
  match suffix with
  | String c _ => digit_value c = None
  | EmptyString => True
  end ->
  (Z.abs z <= 2 ^ 53 -> parseInt (String_of_Z z +:+ suffix) = Int z)
  /\ clamp_param (qstring (String_of_Z z +:+ suffix)) dflt lo hi =
       Int (Z.min (Z.max z lo) hi).
Proof.
  intros _ _ Hstop.
  destruct (parseInt_String_of_Z_append z suffix Hstop) as (Hparse & c & rest & Heq).
  split; [intros _; exact Hparse |].
  unfold clamp_param. rewrite Heq. cbn [or_default]. rewrite <- Heq, Hparse.
  reflexivity.
Qed.

Lemma numeric_parameter_read_back_witness :
  parseInt "400px" = Int 400
  /\ clamp_param (qstring "-7 ") "640" 320 1200 = Int 320.
Proof.
  assert (Hlo : Z.abs 320 <= 2 ^ 53) by (vm_compute; discriminate).
  assert (Hhi : Z.abs 1200 <= 2 ^ 53) by (vm_compute; discriminate).
  split.
  - apply (proj1 (numeric_parameter_read_back 400 320 1200 "px" "640" Hlo Hhi
                    ltac:(vm_compute; reflexivity))).
    vm_compute. discriminate.
  - exact (proj2 (numeric_parameter_read_back (-7) 320 1200 " " "640" Hlo Hhi
                    ltac:(vm_compute; reflexivity))).
Defined.

(** X8.  The digits drawn lose nothing: [parseInt] reads [pad2 n] back as [n],
    for every field value [n >= 0], and [pad2 n] has at least two
    characters. *)
Theorem pad2_read_back (n : Z) :
  0 <= n ->
  parseInt (pad2 n) = Int n /\ (2 <= String.length (pad2 n))%nat.
Proof.
  intros Hn. rewrite pad2_spec by exact Hn.
  destruct (Z.ltb_spec n 10) as [Hlt | Hge].
  - destruct (String_of_Z_nonneg n Hn) as (c & rest & v & Heq & Hv & Hparse).
    destruct (Hparse EmptyString 0) as (_ & Hval).
    destruct (parseInt_digit_head "0" (String_of_Z n) 0 eq_refl) as (Hplus & _).
    rewrite Hplus.
    change (parse_digits (String "0" (String_of_Z n)) 0)
      with (parse_digits (String_of_Z n) 0).
    rewrite Hval. split; [f_equal; lia |].
    rewrite Heq. cbn [String.length]. lia.
  - destruct (parseInt_String_of_Z_append n EmptyString I) as (Hparse & _).
    replace (String_of_Z n +:+ "") with (String_of_Z n) in Hparse.
    + split; [exact Hparse | apply String_of_Z_length, Hge].
    + clear. induction (String_of_Z n) as [| c s IH]; [reflexivity |].
      change (String c s +:+ "") with (String c (s +:+ "")). rewrite <- IH. reflexivity.
Qed.

Lemma pad2_read_back_witness :
  parseInt (pad2 7) = Int 7 /\ parseInt (pad2 123) = Int 123.
Proof.
  split.
  - exact (proj1 (pad2_read_back 7 ltac:(lia))).
  - exact (proj1 (pad2_read_back 123 ltac:(lia))).
Defined.

Section KeyFacts.

Lemma append_cons (c : ascii) (s t : string) : String c s +:+ t = String c (s +:+ t).
Proof. reflexivity. Qed.

Lemma append_nil (t : string) : "" +:+ t = t.
Proof. reflexivity. Qed.

Lemma string_forall_pretty_N_go (p : ascii -> bool) (x : N) (s : string) :
  (forall d, (d < 10)%N -> p (pretty_N_char d) = true) ->
  string_forall p (pretty_N_go x s) = string_forall p s.
Proof.
  intros Hp. revert s. induction (N.lt_wf_0 x) as [x _ IH]. intros s.
  destruct (decide (0 < x)%N) as [Hpos | Hzero].
  - rewrite pretty_N_go_step by exact Hpos.
    rewrite IH by (apply N.div_lt; lia).
    cbn [string_forall]. rewrite Hp by (apply N.mod_lt; lia). reflexivity.
  - replace x with 0%N by lia. rewrite pretty_N_go_0. reflexivity.
Qed.

Lemma digits_are_number_chars (d : N) :
  (d < 10)%N -> is_number_char (pretty_N_char d) = true.
Proof.
  intros Hd. unfold is_number_char. rewrite pretty_N_char_digit by exact Hd. reflexivity.
Qed.

Lemma String_of_number_chars (n : jsnum) :
  string_forall is_number_char (String_of n) = true.
Proof.
  destruct n as [| [| p | p]]; try reflexivity.
  - unfold String_of, String_of_Z, pretty, pretty_Z, pretty, pretty_positive, pretty, pretty_N.
    destruct (decide (N.pos p = 0%N)); [reflexivity |].
    rewrite string_forall_pretty_N_go by exact digits_are_number_chars. reflexivity.
  - change (String_of (Int (Z.neg p))) with (String "-" (String_of_Z (Z.pos p))).
    cbn [string_forall]. change (is_number_char "-") with true. cbn [andb].
    unfold String_of_Z, pretty, pretty_Z, pretty, pretty_positive, pretty, pretty_N.
    destruct (decide (N.pos p = 0%N)); [reflexivity |].
    rewrite string_forall_pretty_N_go by exact digits_are_number_chars. reflexivity.
Qed.

(** Two strings free of the separator, each followed by the separator, are
    cut at the same place. *)
Lemma cut_at_separator (p : ascii -> bool) (sep : ascii) (s1 : string) :
  p sep = false ->
  forall s2 r1 r2,
    string_forall p s1 = true -> string_forall p s2 = true ->
    s1 +:+ String sep r1 = s2 +:+ String sep r2 ->
    s1 = s2 /\ r1 = r2.
Proof.
  intros Hsep. induction s1 as [| c1 s1 IH]; intros s2 r1 r2 H1 H2 Heq.
  - destruct s2 as [| c2 s2].
    + rewrite !append_nil in Heq. injection Heq as ->. split; reflexivity.
    + rewrite append_nil, append_cons in Heq. injection Heq as <- _.
      cbn [string_forall] in H2. rewrite Hsep in H2. discriminate.
  - destruct s2 as [| c2 s2].
    + rewrite append_nil, append_cons in Heq. injection Heq as -> _.
      cbn [string_forall] in H1. rewrite Hsep in H1. discriminate.
    + rewrite !append_cons in Heq. injection Heq as -> Heq.
      cbn [string_forall] in H1, H2.
      apply andb_prop in H1 as [_ H1]. apply andb_prop in H2 as [_ H2].
      destruct (IH s2 r1 r2 H1 H2 Heq) as [-> ->]. split; reflexivity.
Qed.

Lemma String_of_inj (a b : jsnum) : String_of a = String_of b -> a = b.
Proof.
  assert (Hnan : forall z, String_of (Int z) <> "NaN").
  { intros z Heq. destruct (Z_le_gt_dec 0 z) as [Hz | Hz].
    - destruct (String_of_Z_nonneg z Hz) as (c & rest & v & Hs & Hv & _).
      cbn [String_of] in Heq. rewrite Hs in Heq. injection Heq as -> _.
      vm_compute in Hv. discriminate.
    - destruct z as [| p | p]; try lia.
      change (String_of (Int (Z.neg p))) with (String "-" (String_of_Z (Z.pos p))) in Heq.
      discriminate. }
  destruct a as [| x], b as [| y]; intros Heq.
  - reflexivity.
  - symmetry in Heq. destruct (Hnan y Heq).
  - destruct (Hnan x Heq).
  - f_equal. apply (inj (pretty : Z -> string)). exact Heq.
Qed.

End KeyFacts.

(** [gifKey] determines [w], [h] and [s], NaN included. *)
Lemma gifKey_inj (w h s w' h' s' : jsnum) :
  gifKey w h s = gifKey w' h' s' -> w = w' /\ h = h' /\ s = s'.
Proof.
  unfold gifKey. intros Heq.
  change ("x" +:+ ?t) with (String "x" t) in Heq.
  change ("_s" +:+ ?t) with (String "_" (String "s" t)) in Heq.
  destruct (cut_at_separator is_number_char "x" (String_of w) eq_refl _ _ _
              (String_of_number_chars w) (String_of_number_chars w') Heq) as [Hw Heq1].
  destruct (cut_at_separator is_number_char "_" (String_of h) eq_refl _ _ _
              (String_of_number_chars h) (String_of_number_chars h') Heq1) as [Hh Heq2].
  injection Heq2 as Hs.
  split; [apply String_of_inj, Hw |]. split; [apply String_of_inj, Hh |].
  apply String_of_inj, Hs.
Qed.

(** X9.  Two requests share a cache key exactly when their clamped parameters
    are the same, NaN included: different sizes or durations never collide
    in [gifCache] or [gifInFlight], and the animation built for one of them
    has the width, height and frame count the other asked for. *)
Theorem same_key_same_parameters (TARGET : Z) (a a' : Arrival) :
  (key_of a = key_of a' <->
   param_w a = param_w a' /\ param_h a = param_h a' /\ param_s a = param_s a')
  /\ (key_of a = key_of a' ->
      enc_width (bytes_of TARGET a') = param_w a
      /\ enc_height (bytes_of TARGET a') = param_h a
      /\ length (enc_frames (bytes_of TARGET a')) = iterations (param_s a)).
Proof.
  assert (Hinj : key_of a = key_of a' ->
            param_w a = param_w a' /\ param_h a = param_h a' /\ param_s a = param_s a')
    by (unfold key_of; apply gifKey_inj).
  split.
  - split; [exact Hinj |].
    intros (Hw & Hh & Hs). unfold key_of. rewrite Hw, Hh, Hs. reflexivity.
  - intros Hkey. destruct (Hinj Hkey) as (Hw & Hh & Hs).
    unfold bytes_of. rewrite buildCountdownGIF_unfold.
    cbn [enc_width enc_height enc_frames]. rewrite length_map, length_seq.
    rewrite Hw, Hh, Hs. repeat split; reflexivity.
Qed.

(** X10.  Every parameter the handler computes is NaN, exactly when [parseInt]
    finds no digits, or an integer within its bounds: [w] in [[320, 1200]],
    [h] in [[140, 600]], [s] in [[10, 120]]. *)
Theorem parameters_in_range_or_NaN (a : Arrival) :
  let ok := fun (n : jsnum) (v : qvalue) (dflt : string) (lo hi : Z) =>
    (n = NaN /\ parseInt (or_default v dflt) = NaN)
    \/ (exists z, n = Int z /\ lo <= z <= hi) in
  ok (param_w a) (query_w (request a)) "640" 320 1200
  /\ ok (param_h a) (query_h (request a)) "200" 140 600
  /\ ok (param_s a) (query_s (request a)) "60" 10 120.
Proof.
  assert (Hgen : forall v dflt lo hi, lo <= hi ->
            (clamp_param v dflt lo hi = NaN /\ parseInt (or_default v dflt) = NaN)
            \/ (exists z, clamp_param v dflt lo hi = Int z /\ lo <= z <= hi)).
  { intros v dflt lo hi Hle. unfold clamp_param.
    destruct (parseInt (or_default v dflt)) as [| z]; [left; split; reflexivity |].
    right. exists (Z.min (Z.max z lo) hi). split; [reflexivity | lia]. }
  intros ok. subst ok. cbv beta.
  split; [apply Hgen; lia |]. split; apply Hgen; lia.
Qed.

(** ** Where cached and sent bytes come from *)

Section ProvenanceFacts.

Variable TARGET : Z.

Lemma built_for_mono (H H' : list Arrival) (k : string) (b : Buffer) :
  incl H H' -> built_for TARGET H k b -> built_for TARGET H' k b.
Proof.
  intros Hincl (a & Hin & Hrest). exists a. split; [apply Hincl, Hin | exact Hrest].
Qed.

Lemma job_prov_mono (H H' : list Arrival) (j : Job) :
  incl H H' -> job_prov TARGET H j -> job_prov TARGET H' j.
Proof.
  intros Hincl ((a & Hin & Hrest) & Hp). split.
  - exists a. split; [apply Hincl, Hin | exact Hrest].
  - intros b Hb. apply (built_for_mono H); [exact Hincl | apply Hp, Hb].
Qed.

Lemma provenance_mono (H H' : list Arrival) (st : Server) :
  incl H H' -> provenance TARGET H st -> provenance TARGET H' st.
Proof.
  intros Hincl (Hc & Hf & Hj & Hs). repeat split.
  - intros k c Hk. destruct (Hc k c Hk) as (a & Hin & Hrest).
    exists a. split; [apply Hincl, Hin | exact Hrest].
  - intros k b Hk. apply (built_for_mono H); [exact Hincl | apply (Hf k b Hk)].
  - eapply Forall_impl; [exact Hj |]. intros j. apply job_prov_mono, Hincl.
  - intros r resp Hin. destruct (Hs r resp Hin) as [-> | (a & b & Ha & Hr & Hb & ->)];
      [left; reflexivity | right].
    exists a, b. split; [apply Hincl, Ha |]. split; [exact Hr |].
    split; [apply (built_for_mono H); assumption | reflexivity].
Qed.

Lemma handler_provenance (H : list Arrival) (a : Arrival) (st : Server) :
  provenance TARGET H st ->
  provenance TARGET (H ++ [a]) (get_countdown_gif TARGET a st).
Proof.
  intros Hprov.
  assert (Hincl : incl H (H ++ [a])) by (apply incl_appl, incl_refl).
  assert (Ha : In a (H ++ [a])) by (apply in_or_app; right; left; reflexivity).
  destruct (provenance_mono H (H ++ [a]) st Hincl Hprov) as (Hc & Hf & Hj & Hs).
  destruct (hit_or_miss st (key_of a) (date_now a)) as [(c & Hcache & Hfresh) | Hmiss].
  - rewrite (handler_hit TARGET st a c Hcache Hfresh).
    split; [exact Hc |]. split; [exact Hf |]. split; [exact Hj |].
    intros r resp Hin. cbn [respond sent] in Hin.
    apply in_app_or in Hin as [Hin | [Heq | []]]; [apply Hs, Hin |].
    injection Heq as <- <-. right.
    destruct (Hc _ _ Hcache) as (a0 & Hin0 & Hk0 & Hok0 & Hbuf & _).
    exists a, (buf c). repeat split; try assumption.
    exists a0. repeat split; assumption.
  - destruct (gifInFlight st !! key_of a) as [p |] eqn:Hfl.
    + rewrite (handler_join TARGET st a p Hmiss Hfl).
      split; [exact Hc |]. split; [exact Hf |]. split; [| exact Hs].
      cbn [enqueue microtasks]. apply Forall_app. split; [exact Hj |].
      repeat constructor.
      * exists a. repeat split. exact Ha.
      * cbn [job_promise job_key]. intros b ->. apply (Hf _ _ Hfl).
    + assert (Hself : build_throws a = false ->
                built_for TARGET (H ++ [a]) (key_of a) (bytes_of TARGET a)).
      { intros Hok. exists a. repeat split; assumption. }
      destruct (build_throws a) eqn:Hthrow.
      * rewrite (handler_build_throw TARGET st a Hmiss Hfl Hthrow).
        split; [exact Hc |]. split; [| split; [| exact Hs]].
        -- intros k b Hk. cbn [gifInFlight] in Hk.
           destruct (decide (key_of a = k)) as [<- | Hne].
           ++ rewrite lookup_insert_eq in Hk. discriminate.
           ++ rewrite lookup_insert_ne in Hk by exact Hne. apply (Hf k b Hk).
        -- cbn [microtasks]. apply Forall_app. split; [exact Hj |].
           repeat constructor.
           ++ exists a. repeat split. exact Ha.
           ++ cbn [job_promise]. intros b Hb. discriminate.
      * rewrite (handler_build_ok TARGET st a Hmiss Hfl Hthrow).
        split; [| split; [| split; [| exact Hs]]].
        -- intros k c Hk. cbn [gifCache] in Hk.
           destruct (decide (key_of a = k)) as [<- | Hne].
           ++ rewrite lookup_insert_eq in Hk. injection Hk as <-.
              exists a. cbn [buf expiresAt]. repeat split; assumption.
           ++ rewrite lookup_insert_ne in Hk by exact Hne. apply (Hc k c Hk).
        -- intros k b Hk. cbn [gifInFlight] in Hk.
           destruct (decide (key_of a = k)) as [<- | Hne].
           ++ rewrite lookup_insert_eq in Hk. injection Hk as <-. apply Hself. reflexivity.
           ++ rewrite lookup_insert_ne in Hk by exact Hne. apply (Hf k b Hk).
        -- cbn [microtasks]. apply Forall_app. split; [exact Hj |].
           repeat constructor.
           ++ exists a. repeat split. exact Ha.
           ++ cbn [job_promise job_key]. intros b Hb. injection Hb as <-.
              apply Hself. reflexivity.
Qed.

Lemma resume_provenance (H : list Arrival) (j : Job) (st : Server) :
  cache_prov TARGET H st -> in_flight_prov TARGET H st -> sent_prov TARGET H st ->
  job_prov TARGET H j ->
  cache_prov TARGET H (resume j st) /\ in_flight_prov TARGET H (resume j st)
  /\ sent_prov TARGET H (resume j st).
Proof.
  intros Hc Hf Hs ((a & Ha & Hrid & Hkey) & Hp).
  split; [intros k c Hk; rewrite resume_gifCache in Hk; apply (Hc k c Hk) |].
  split.
  - intros k b Hk.
    assert (Hold : gifInFlight st !! k = Some (Fulfilled b)).
    { destruct j as [r k' [b' |] | r k' [b' |]];
        cbn [resume respond log set_gifInFlight gifInFlight] in Hk;
        try exact Hk; apply lookup_delete_Some in Hk as [_ Hk]; exact Hk. }
    apply (Hf k b Hold).
  - assert (Hnew : forall b, job_promise j = Fulfilled b ->
              exists a0 b0, In a0 H /\ rid (request a0) = job_rid j
                            /\ built_for TARGET H (key_of a0) b0 /\ res_end b = res_end b0).
    { intros b Hb. exists a, b. repeat split; try assumption.
      rewrite Hkey. apply Hp, Hb. }
    intros r resp Hin.
    destruct j as [r' k' [b' |] | r' k' [b' |]];
      cbn [resume respond log set_gifInFlight sent job_promise job_rid] in Hin, Hnew;
      apply in_app_or in Hin as [Hin | [Heq | []]]; try (apply Hs, Hin);
      injection Heq as <- <-; try (left; reflexivity);
      right; apply Hnew; reflexivity.
Qed.

Lemma checkpoint_provenance (H : list Arrival) (st : Server) :
  provenance TARGET H st -> provenance TARGET H (checkpoint st).
Proof.
  intros (Hc & Hf & Hj & Hs). unfold checkpoint.
  assert (Hdrain : forall jobs s,
            Forall (job_prov TARGET H) jobs ->
            cache_prov TARGET H s -> in_flight_prov TARGET H s -> sent_prov TARGET H s ->
            microtasks s = [] ->
            provenance TARGET H (fold_left (fun st j => resume j st) jobs s)).
  { induction jobs as [| j jobs IH]; intros s Hjobs Hcs Hfs Hss Hq.
    - cbn [fold_left]. repeat split; try assumption. rewrite Hq. constructor.
    - apply Forall_cons in Hjobs as [Hjob Hjobs]. cbn [fold_left].
      destruct (resume_provenance H j s Hcs Hfs Hss Hjob) as (Hc' & Hf' & Hs').
      apply IH; try assumption. rewrite resume_microtasks. exact Hq. }
  apply Hdrain; try assumption. reflexivity.
Qed.

Lemma exec_provenance (acts : list Action) :
  forall (H : list Arrival) (st : Server),
    provenance TARGET H st -> provenance TARGET (H ++ handled acts) (exec TARGET acts st).
Proof.
  induction acts as [| [a |] acts IH]; intros H st Hprov.
  - cbn [handled exec fold_left]. rewrite app_nil_r. exact Hprov.
  - cbn [handled exec fold_left step].
    replace (H ++ a :: handled acts) with ((H ++ [a]) ++ handled acts)
      by (rewrite <- app_assoc; reflexivity).
    apply IH, handler_provenance, Hprov.
  - cbn [handled exec fold_left step]. apply IH, checkpoint_provenance, Hprov.
Qed.

Lemma reachable_provenance (acts : list Action) :
  provenance TARGET (handled acts) (exec TARGET acts initial).
Proof.
  apply (exec_provenance acts []).
  repeat split.
  - intros k c Hk. cbn [initial gifCache] in Hk. rewrite lookup_empty in Hk. discriminate.
  - intros k b Hk. cbn [initial gifInFlight] in Hk. rewrite lookup_empty in Hk.
    discriminate.
  - constructor.
  - intros r resp [].
Qed.

End ProvenanceFacts.

Section ServedBytesFacts.

Variable TARGET : Z.

Lemma canvas_before_size (w h : jsnum) (start : Z) (i : nat) :
  cwidth (canvas_before TARGET w h start i) = w
  /\ cheight (canvas_before TARGET w h start i) = h.
Proof.
  induction i as [| i [IHw IHh]]; [split; reflexivity |].
  cbn [canvas_before]. rewrite drawCountdownFrame_appends. cbn [cwidth cheight].
  split; assumption.
Qed.

(** The animation built for the parameters of one request fits any request
    with the same key. *)
Lemma bytes_of_same_key (a a' : Arrival) :
  key_of a' = key_of a ->
  enc_width (bytes_of TARGET a') = param_w a
  /\ enc_height (bytes_of TARGET a') = param_h a
  /\ length (enc_frames (bytes_of TARGET a')) = iterations (param_s a)
  /\ enc_repeat (bytes_of TARGET a') = Some 0
  /\ enc_delay (bytes_of TARGET a') = Some 1000.
Proof.
  intros Hkey. unfold key_of in Hkey. apply gifKey_inj in Hkey as (Hw & Hh & Hs).
  unfold bytes_of. rewrite buildCountdownGIF_unfold.
  cbn [enc_width enc_height enc_frames enc_repeat enc_delay].
  rewrite length_map, length_seq, Hw, Hh, Hs. repeat split; reflexivity.
Qed.

Lemma NoDup_map_In_inj {A B : Type} (f : A -> B) (l : list A) (x y : A) :
  NoDup (map f l) -> In x l -> In y l -> f x = f y -> x = y.
Proof.
  induction l as [| z l IH]; intros Hnd Hx Hy Hf; [destruct Hx |].
  cbn [map] in Hnd. apply NoDup_cons in Hnd as [Hz Hnd].
  destruct Hx as [-> | Hx], Hy as [-> | Hy].
  - reflexivity.
  - exfalso. apply Hz. rewrite Hf. apply list_elem_of_In, in_map, Hy.
  - exfalso. apply Hz. rewrite <- Hf. apply list_elem_of_In, in_map, Hx.
  - apply IH; assumption.
Qed.

End ServedBytesFacts.


(** X12.  Whatever the run, an entry of [gifCache] under key [k] holds the bytes
    that a handled request with key [k] built, unchanged, with the size and
    duration of that key, and it expires 60 s after the [Date.now()] that
    request read. *)
Theorem cache_entries_come_from_builds
    (TARGET : Z) (acts : list Action) (k : string) (c : CacheEntry) :
  gifCache (exec TARGET acts initial) !! k = Some c ->
  exists a, In a (handled acts) /\ key_of a = k /\ build_throws a = false
    /\ buf c = bytes_of TARGET a /\ expiresAt c = date_now a + 60000
    /\ forall a', key_of a' = k ->
         enc_width (buf c) = param_w a' /\ enc_height (buf c) = param_h a'
         /\ length (enc_frames (buf c)) = iterations (param_s a').
Proof.
  intros Hk.
  destruct (reachable_provenance TARGET acts) as (Hc & _).
  destruct (Hc k c Hk) as (a & Hin & Hkey & Hok & Hbuf & Hexp).
  exists a. repeat split; try assumption;
    rewrite Hbuf; apply (bytes_of_same_key TARGET a' a); congruence.
Qed.

Lemma cache_entries_come_from_builds_witness :
  exists a, In a [first_ok; second_before_expiry] /\ key_of a = small_key
    /\ date_now a + 60000 = t0 + 60000.
Proof.
  assert (Hk : exists c,
            gifCache (exec TARGET_default (turn [first_ok] ++ turn [second_before_expiry])
                        initial) !! small_key = Some c /\ expiresAt c = t0 + 60000).
  { rewrite exec_app.
    rewrite (building_turn TARGET_default first_ok initial initial_owned eq_refl
               (initial_cache_miss _ _) eq_refl).
    erewrite cached_turn; [| reflexivity | cbn [gifCache]; apply lookup_insert_eq
                           | vm_compute; reflexivity].
    cbn [respond gifCache]. eexists. split; [apply lookup_insert_eq | reflexivity]. }
  destruct Hk as (c & Hk & Hexp).
  destruct (cache_entries_come_from_builds TARGET_default _ _ _ Hk)
    as (a & Hin & Hkey & _ & _ & Hexp' & _).
  exists a. split; [exact Hin |]. split; [exact Hkey |]. rewrite <- Hexp'. exact Hexp.
Defined.

(** X13.  Every answer is either status 500 with no body, or the animation some
    handled request with the same key built; so, request ids being
    distinct, a request that is answered with a body gets an animation of
    its own clamped width, height and duration, whether it came from its own
    build, from the cache or from a build it joined. *)
Theorem response_matches_request
    (TARGET : Z) (acts : list Action) (a : Arrival) (resp : Response) :
  NoDup (map (fun x => rid (request x)) (handled acts)) ->
  In a (handled acts) ->
  In (rid (request a), resp) (sent (exec TARGET acts initial)) ->
  resp = res_status_500_end
  \/ exists (b : Buffer) (a' : Arrival),
       resp = res_end b
       /\ In a' (handled acts) /\ key_of a' = key_of a /\ build_throws a' = false
       /\ b = bytes_of TARGET a'
       /\ enc_width b = param_w a /\ enc_height b = param_h a
       /\ length (enc_frames b) = iterations (param_s a)
       /\ enc_repeat b = Some 0 /\ enc_delay b = Some 1000.
Proof.
  intros Hnd Ha Hin.
  destruct (reachable_provenance TARGET acts) as (_ & _ & _ & Hs).
  destruct (Hs _ _ Hin) as [-> | (a0 & b & Ha0 & Hrid & (a' & Ha' & Hkey & Hok & ->) & ->)];
    [left; reflexivity | right].
  assert (a0 = a) as ->
    by (apply (NoDup_map_In_inj (fun x => rid (request x)) (handled acts)); assumption).
  destruct (bytes_of_same_key TARGET a a' Hkey) as (Hw & Hh & Hn & Hrep & Hdel).
  exists (bytes_of TARGET a'), a'. repeat split; assumption.
Qed.

Lemma response_matches_request_witness :
  let acts := turn [first_ok] ++ turn [second_before_expiry] in
  In (2%nat, res_end (bytes_of TARGET_default first_ok))
     (sent (exec TARGET_default acts initial))
  /\ enc_width (bytes_of TARGET_default first_ok) = param_w second_before_expiry.
Proof.
  intros acts.
  assert (Hin : In (rid (request second_before_expiry),
                    res_end (bytes_of TARGET_default first_ok))
                  (sent (exec TARGET_default acts initial))).
  { subst acts. rewrite exec_app.
    rewrite (building_turn TARGET_default first_ok initial initial_owned eq_refl
               (initial_cache_miss _ _) eq_refl).
    erewrite cached_turn; [| reflexivity | cbn [gifCache]; apply lookup_insert_eq
                           | vm_compute; reflexivity].
    cbn [respond sent buf]. apply in_or_app. right. left. reflexivity. }
  split; [exact Hin |].
  assert (Hnd : NoDup (map (fun x => rid (request x)) (handled acts)))
    by (subst acts; apply (bool_decide_unpack _); vm_compute; exact I).
  destruct (response_matches_request TARGET_default acts second_before_expiry _ Hnd
              ltac:(right; left; reflexivity) Hin) as [Hbad | (b & a' & Hresp & _ & _ & _ & _ & Hw & _)].
  - discriminate.
  - injection Hresp as <-. exact Hw.
Defined.

(** ** The endpoint before and after the cache *)

(** X14.  The cache changes no answer that is built: on a miss, a request alone
    in its turn is sent exactly what the endpoint without cache sends, and
    status 500 where that one lets the builder's exception escape.  On a
    hit it is sent what the endpoint without cache sent to the earlier
    request for the same key that built the entry. *)
Theorem cache_preserves_uncached_response
    (TARGET : Z) (acts : list Action) (a : Arrival) :
  let st0 := exec TARGET acts initial in
  microtasks st0 = [] ->
  (cache_miss st0 (key_of a) (date_now a) ->
   sent (exec TARGET (turn [a]) st0) =
     sent st0 ++ [(rid (request a),
                   default res_status_500_end (Uncached.get_countdown_gif TARGET a))])
  /\ (forall c, gifCache st0 !! key_of a = Some c -> date_now a < expiresAt c ->
      sent (exec TARGET (turn [a]) st0) = sent st0 ++ [(rid (request a), res_end (buf c))]
      /\ exists a', In a' (handled acts) /\ key_of a' = key_of a
           /\ Uncached.get_countdown_gif TARGET a' = Some (res_end (buf c))).
Proof.
  intros st0 Hq.
  assert (Hown : in_flight_owned st0) by (apply exec_owned, initial_owned).
  split.
  - intros Hmiss. unfold Uncached.get_countdown_gif.
    destruct (build_throws a) eqn:Hthrow.
    + rewrite (failing_turn TARGET a st0 Hown Hq Hmiss Hthrow). reflexivity.
    + rewrite (building_turn TARGET a st0 Hown Hq Hmiss Hthrow). reflexivity.
  - intros c Hc Hfresh.
    rewrite (cached_turn TARGET a st0 c Hq Hc Hfresh). split; [reflexivity |].
    destruct (reachable_provenance TARGET acts) as (Hprov & _).
    destruct (Hprov _ _ Hc) as (a' & Hin & Hkey & Hok & Hbuf & _).
    exists a'. split; [exact Hin |]. split; [exact Hkey |].
    unfold Uncached.get_countdown_gif. rewrite Hok, Hbuf. reflexivity.
Qed.

Lemma cache_preserves_uncached_response_witness :
  sent (exec TARGET_default (turn [first_ok]) initial) =
    [(1%nat, default res_status_500_end (Uncached.get_countdown_gif TARGET_default first_ok))]
  /\ sent (exec TARGET_default (turn [first_failing]) initial) =
       [(1%nat, res_status_500_end)].
Proof.
  split.
  - exact (proj1 (cache_preserves_uncached_response TARGET_default [] first_ok eq_refl)
             (initial_cache_miss _ _)).
  - exact (proj1 (cache_preserves_uncached_response TARGET_default [] first_failing eq_refl)
             (initial_cache_miss _ _)).
Defined.

(** ** Answers *)

Section AnswerFacts.

Variable TARGET : Z.

Lemma resume_sent_rids (j : Job) (st : Server) :
  map fst (sent (resume j st)) = map fst (sent st) ++ [job_rid j].
Proof.
  destruct j as [r k [b |] | r k [b |]];
    cbn [resume respond log set_gifInFlight sent job_rid];
    rewrite map_app; reflexivity.
Qed.

Lemma drain_sent_rids (jobs : list Job) (st : Server) :
  map fst (sent (fold_left (fun st j => resume j st) jobs st)) =
    map fst (sent st) ++ map job_rid jobs.
Proof.
  revert st. induction jobs as [| j jobs IH]; intros st.
  - cbn [fold_left map]. rewrite app_nil_r. reflexivity.
  - cbn [fold_left map]. rewrite IH, resume_sent_rids, <- app_assoc. reflexivity.
Qed.

Lemma handler_rids (a : Arrival) (st : Server) :
  map fst (sent (get_countdown_gif TARGET a st))
    ++ map job_rid (microtasks (get_countdown_gif TARGET a st))
  ≡ₚ (map fst (sent st) ++ map job_rid (microtasks st)) ++ [rid (request a)].
Proof.
  destruct (hit_or_miss st (key_of a) (date_now a)) as [(c & Hc & Hfresh) | Hmiss].
  - rewrite (handler_hit TARGET st a c Hc Hfresh). cbn [respond sent microtasks].
    rewrite map_app. cbn [map fst].
    rewrite <- !app_assoc. apply Permutation_app_head, Permutation_app_comm.
  - assert (Hjob : forall j s, job_rid j = rid (request a) ->
              map fst (sent s) ++ map job_rid (microtasks s ++ [j])
              ≡ₚ (map fst (sent s) ++ map job_rid (microtasks s)) ++ [rid (request a)]).
    { intros j s Hj. rewrite map_app. cbn [map]. rewrite Hj, app_assoc. reflexivity. }
    destruct (gifInFlight st !! key_of a) as [p |] eqn:Hfl.
    + rewrite (handler_join TARGET st a p Hmiss Hfl). cbn [enqueue sent microtasks].
      apply (Hjob _ st). reflexivity.
    + destruct (build_throws a) eqn:Hthrow.
      * rewrite (handler_build_throw TARGET st a Hmiss Hfl Hthrow). cbn [sent microtasks].
        apply (Hjob _ st). reflexivity.
      * rewrite (handler_build_ok TARGET st a Hmiss Hfl Hthrow). cbn [sent microtasks].
        apply (Hjob _ st). reflexivity.
Qed.

Lemma exec_rids (acts : list Action) :
  forall st : Server,
    map fst (sent (exec TARGET acts st)) ++ map job_rid (microtasks (exec TARGET acts st))
    ≡ₚ (map fst (sent st) ++ map job_rid (microtasks st))
         ++ map (fun a => rid (request a)) (handled acts).
Proof.
  induction acts as [| [a |] acts IH]; intros st.
  - cbn [exec fold_left handled map]. rewrite app_nil_r. reflexivity.
  - cbn [exec fold_left step handled map].
    change (fold_left (step TARGET) acts ?s) with (exec TARGET acts s).
    rewrite IH, handler_rids, <- app_assoc. reflexivity.
  - cbn [exec fold_left step handled].
    change (fold_left (step TARGET) acts ?s) with (exec TARGET acts s).
    rewrite IH. unfold checkpoint.
    rewrite drain_sent_rids, drain_microtasks. cbn [sent microtasks map].
    rewrite app_nil_r. reflexivity.
Qed.

Lemma handler_keeps_cache_keys (a : Arrival) (st : Server) (k : string) :
  is_Some (gifCache st !! k) -> is_Some (gifCache (get_countdown_gif TARGET a st) !! k).
Proof.
  intros Hk.
  destruct (hit_or_miss st (key_of a) (date_now a)) as [(c & Hc & Hfresh) | Hmiss].
  - rewrite (handler_hit TARGET st a c Hc Hfresh). exact Hk.
  - destruct (gifInFlight st !! key_of a) as [p |] eqn:Hfl.
    + rewrite (handler_join TARGET st a p Hmiss Hfl). exact Hk.
    + destruct (build_throws a) eqn:Hthrow.
      * rewrite (handler_build_throw TARGET st a Hmiss Hfl Hthrow). exact Hk.
      * rewrite (handler_build_ok TARGET st a Hmiss Hfl Hthrow). cbn [gifCache].
        rewrite lookup_insert_is_Some. destruct (decide (key_of a = k)); auto.
Qed.

End AnswerFacts.

(** X15.  Every handled request is answered exactly once: at any point of a run
    the requests already answered and those suspended at an [await] are,
    together, the requests handled, each once; and the checkpoint answers
    every suspended one, so at the end of a turn no request is left waiting
    and none has two answers. *)
Theorem every_request_answered_once (TARGET : Z) (acts : list Action) :
  let st := exec TARGET acts initial in
  let answered := map fst (sent st) in
  let waiting := map job_rid (microtasks st) in
  answered ++ waiting ≡ₚ map (fun a => rid (request a)) (handled acts)
  /\ map fst (sent (checkpoint st)) = answered ++ waiting
  /\ microtasks (checkpoint st) = []
  /\ map fst (sent (exec TARGET (acts ++ [Checkpoint]) initial))
     ≡ₚ map (fun a => rid (request a)) (handled acts).
Proof.
  intros st answered waiting.
  assert (Hperm : answered ++ waiting ≡ₚ map (fun a => rid (request a)) (handled acts)).
  { subst answered waiting st. rewrite exec_rids. reflexivity. }
  assert (Hcp : map fst (sent (checkpoint st)) = answered ++ waiting).
  { unfold checkpoint. rewrite drain_sent_rids. reflexivity. }
  split; [exact Hperm |]. split; [exact Hcp |].
  split; [apply checkpoint_microtasks |].
  rewrite exec_app. cbn [exec fold_left step]. fold st. rewrite Hcp. exact Hperm.
Qed.

(** X16.  Nothing is ever removed from [gifCache]: a key that has an entry keeps
    one through every later request and checkpoint, expired or not. *)
Theorem cache_never_evicts (TARGET : Z) (acts : list Action) (st : Server) (k : string) :
  is_Some (gifCache st !! k) -> is_Some (gifCache (exec TARGET acts st) !! k).
Proof.
  revert st. induction acts as [| [a |] acts IH]; intros st Hk.
  - exact Hk.
  - cbn [exec fold_left step]. apply IH, handler_keeps_cache_keys, Hk.
  - cbn [exec fold_left step]. apply IH. rewrite checkpoint_gifCache. exact Hk.
Qed.

Lemma cache_never_evicts_witness :
  is_Some (gifCache (exec TARGET_default (turn [later_failing; later_joiner])
                       (exec TARGET_default (turn [first_ok]) initial)) !! small_key).
Proof.
  apply cache_never_evicts.
  rewrite (building_turn TARGET_default first_ok initial initial_owned eq_refl
             (initial_cache_miss _ _) eq_refl).
  cbn [gifCache]. rewrite lookup_insert_is_Some. left. split; reflexivity.
Defined.

(** ** Requests for one key in the same turn *)

Section SameTurnFacts.

Variable TARGET : Z.

(** After a build that returned, each later request of the turn for the key
    is answered from the cache if it is fresh for it, and otherwise waits
    for the registered promise. *)
Lemma followers_of_a_build (k : string) (e : CacheEntry) (followers : list Arrival) :
  forall st : Server,
    gifCache st !! k = Some e ->
    gifInFlight st !! k = Some (Fulfilled (buf e)) ->
    Forall (fun j => key_of j = k) followers ->
    exec TARGET (map Handle followers) st =
      mkServer (gifCache st) (gifInFlight st)
        (microtasks st ++
           map (fun j => AwaitInFlight (rid (request j)) k (Fulfilled (buf e)))
             (List.filter (fun j => negb (date_now j <? expiresAt e)) followers))
        (sent st ++
           map (fun j => (rid (request j), res_end (buf e)))
             (List.filter (fun j => date_now j <? expiresAt e) followers))
        (trace st).
Proof.
  induction followers as [| j rest IH]; intros st Hc Hfl Hall.
  - cbn [map List.filter exec fold_left]. rewrite !app_nil_r. destruct st; reflexivity.
  - apply Forall_cons in Hall as [Hkey Hrest].
    cbn [map exec fold_left step List.filter].
    change (fold_left (step TARGET) (map Handle rest) ?s)
      with (exec TARGET (map Handle rest) s).
    rewrite <- Hkey in Hc, Hfl.
    destruct (Z.ltb_spec (date_now j) (expiresAt e)) as [Hfresh | Hstale].
    + rewrite (handler_hit TARGET st j e Hc Hfresh). rewrite Hkey in *.
      rewrite IH by assumption.
      cbn [negb respond gifCache gifInFlight microtasks sent trace map].
      rewrite <- app_assoc. reflexivity.
    + assert (Hmiss : cache_miss st (key_of j) (date_now j)).
      { intros c Hc'. rewrite Hc in Hc'. injection Hc' as <-. exact Hstale. }
      rewrite (handler_join TARGET st j _ Hmiss Hfl). rewrite Hkey in *.
      rewrite IH by assumption.
      cbn [negb enqueue gifCache gifInFlight microtasks sent trace map].
      rewrite <- app_assoc. reflexivity.
Qed.

Lemma drain_fulfilled_waiters (k : string) (b : Buffer) (waiters : list Arrival) :
  forall st : Server,
    sent (fold_left (fun st j => resume j st)
            (map (fun j => AwaitInFlight (rid (request j)) k (Fulfilled b)) waiters) st) =
      sent st ++ map (fun j => (rid (request j), res_end b)) waiters.
Proof.
  induction waiters as [| j rest IH]; intros st.
  - cbn [map fold_left]. rewrite app_nil_r. reflexivity.
  - cbn [map fold_left]. rewrite IH. cbn [resume respond sent].
    rewrite <- app_assoc. reflexivity.
Qed.

End SameTurnFacts.

(** X17.  Requests for one key handled in one turn share one build: when the
    first of them misses the cache and its build returns, the builder is
    entered once, and every request of the turn for that key is sent the
    bytes of that build, whatever its own [Date.now()]; those for which the
    new entry is fresh are answered at once from the cache, before the
    request that built, and the others when the promise they await
    resolves. *)
Theorem same_turn_requests_share_one_build
    (TARGET : Z) (acts : list Action) (a : Arrival) (followers : list Arrival) :
  let st0 := exec TARGET acts initial in
  let k := key_of a in
  let bytes := bytes_of TARGET a in
  let fresh := fun j : Arrival => date_now j <? date_now a + 60000 in
  microtasks st0 = [] ->
  cache_miss st0 k (date_now a) ->
  build_throws a = false ->
  Forall (fun j => key_of j = k) followers ->
  let st1 := exec TARGET (turn (a :: followers)) st0 in
  builds_for k (trace st1) = S (builds_for k (trace st0))
  /\ sent st1 = sent st0 ++
       map (fun x => (rid (request x), res_end bytes))
         (List.filter fresh followers
            ++ a :: List.filter (fun j => negb (fresh j)) followers)
  /\ gifCache st1 !! k = Some (mkEntry bytes (date_now a + 60000))
  /\ gifInFlight st1 = ∅
  /\ microtasks st1 = [].
Proof.
  intros st0 k bytes fresh Hq Hmiss Hok Hall st1.
  assert (Hown : in_flight_owned st0) by (apply exec_owned, initial_owned).
  pose proof (quiescent_no_in_flight st0 Hown Hq) as Hempty.
  assert (Hfl : gifInFlight st0 !! key_of a = None) by (rewrite Hempty; apply lookup_empty).
  assert (Hst1 : st1 = checkpoint (exec TARGET (map Handle followers)
                                     (get_countdown_gif TARGET a st0))).
  { subst st1. unfold turn. cbn [map]. rewrite <- app_comm_cons.
    change (exec TARGET (Handle a :: ?l) st0)
      with (exec TARGET l (get_countdown_gif TARGET a st0)).
    rewrite exec_app. reflexivity. }
  assert (Hown1 : in_flight_owned (exec TARGET (map Handle followers)
                                     (get_countdown_gif TARGET a st0)))
    by (apply exec_owned, handler_owned, Hown).
  rewrite Hst1. clear Hst1 st1.
  split; [| split; [| split; [| split]]].
  - rewrite checkpoint_builds.
    rewrite (handler_build_ok TARGET st0 a Hmiss Hfl Hok).
    rewrite (followers_of_a_build TARGET k (mkEntry bytes (date_now a + 60000)));
      [| cbn [gifCache]; apply lookup_insert_eq
       | cbn [gifInFlight buf]; apply lookup_insert_eq | exact Hall].
    cbn [trace]. rewrite builds_for_app.
    unfold builds_for at 2. cbn [List.filter is_build_for].
    rewrite bool_decide_eq_true_2 by reflexivity. cbn [length]. lia.
  - rewrite (handler_build_ok TARGET st0 a Hmiss Hfl Hok).
    rewrite (followers_of_a_build TARGET k (mkEntry bytes (date_now a + 60000)));
      [| cbn [gifCache]; apply lookup_insert_eq
       | cbn [gifInFlight buf]; apply lookup_insert_eq | exact Hall].
    unfold checkpoint. cbn [gifCache gifInFlight microtasks sent trace buf expiresAt].
    rewrite Hq. cbn [app fold_left]. rewrite drain_fulfilled_waiters.
    cbn [resume respond log set_gifInFlight sent].
    rewrite map_app. cbn [map]. rewrite <- !app_assoc. reflexivity.
  - rewrite checkpoint_gifCache.
    rewrite (handler_build_ok TARGET st0 a Hmiss Hfl Hok).
    rewrite (followers_of_a_build TARGET k (mkEntry bytes (date_now a + 60000)));
      [| cbn [gifCache]; apply lookup_insert_eq
       | cbn [gifInFlight buf]; apply lookup_insert_eq | exact Hall].
    cbn [gifCache]. apply lookup_insert_eq.
  - apply checkpoint_in_flight_empty, Hown1.
  - apply checkpoint_microtasks.
Qed.

Lemma same_turn_requests_share_one_build_witness :
  let st1 := exec TARGET_default (turn [first_ok; second_before_expiry; second_at_expiry])
               initial in
  builds_for small_key (trace st1) = 1%nat
  /\ map fst (sent st1) = [2%nat; 1%nat; 2%nat]
  /\ Forall (fun x => snd x = res_end (bytes_of TARGET_default first_ok)) (sent st1).
Proof.
  intros st1.
  destruct (same_turn_requests_share_one_build TARGET_default [] first_ok
              [second_before_expiry; second_at_expiry] eq_refl
              (initial_cache_miss _ _) eq_refl
              ltac:(repeat constructor)) as (Hb & Hs & _).
  change (exec TARGET_default [] initial) with initial in Hb, Hs.
  fold st1 in Hb, Hs.
  split; [exact Hb |]. rewrite Hs.
  split; [reflexivity |]. repeat constructor.
Defined.

(** ** The still image endpoint *)

(** X18.  [GET /countdown.png] sends nothing itself when canvas throws (the
    exception leaves the handler); otherwise it answers 200 with the four
    anti-caching header values of the GIF endpoint and the canvas
    [drawCountdownPNG] draws at the clamped width and height, clamped as for
    the animation, whatever the clock and whatever [s]; and when the clock
    reads a whole second and [s] is a number, that image is the first frame
    of the animation built at that instant for the same [w] and [h]. *)
Theorem still_image_is_first_frame_on_the_second
    (TARGET : Z) (a : Arrival) (canvas_throws : bool) :
  match get_countdown_png TARGET (query_w (request a)) (query_h (request a))
          (build_clock a) canvas_throws with
  | None => canvas_throws = true
  | Some png =>
      canvas_throws = false
      /\ png_status png = 200
      /\ map snd (tl (png_headers png)) = map snd (tl gif_headers)
      /\ png_body png =
           drawCountdownPNG TARGET (Some (param_w a)) (Some (param_h a)) (build_clock a)
      /\ cwidth (png_body png) = param_w a /\ cheight (png_body png) = param_h a
      /\ (build_clock a mod 1000 = 0 -> param_s a <> NaN ->
          enc_frames (bytes_of TARGET a) !! 0%nat = Some (png_body png))
  end.
Proof.
  unfold get_countdown_png. destruct canvas_throws; [reflexivity |].
  cbn [png_body png_status png_headers]. fold (param_w a) (param_h a).
  split; [reflexivity |]. split; [reflexivity |]. split; [reflexivity |].
  split; [reflexivity |].
  unfold drawCountdownPNG. cbn [default from_option]. unfold id.
  split; [rewrite drawCountdownFrame_appends; reflexivity |].
  split; [rewrite drawCountdownFrame_appends; reflexivity |].
  intros Hsec Hs.
  unfold bytes_of. rewrite buildCountdownGIF_unfold. cbn [enc_frames].
  assert (Hpos : exists n, iterations (param_s a) = S n).
  { unfold param_s, clamp_param in *.
    destruct (parseInt (or_default (query_s (request a)) "60")) as [| z];
      [exfalso; apply Hs; reflexivity |].
    cbn [Math_max Math_min iterations].
    exists (Nat.pred (Z.to_nat (Z.min (Z.max z 10) 120))). lia. }
  destruct Hpos as (n & ->). cbn [seq map]. unfold canvas_after. cbn [canvas_before].
  unfold setMilliseconds0. rewrite Hsec.
  change (Z.of_nat 0) with 0. rewrite Z.sub_0_r, Z.mul_0_l, Z.add_0_r. reflexivity.
Qed.

Lemma still_image_is_first_frame_on_the_second_witness :
  let a := mkArrival (small_query 1) t0 t0 false in
  exists png,
    get_countdown_png TARGET_default (qstring "320") (qstring "140") t0 false = Some png
    /\ png_status png = 200
    /\ cwidth (png_body png) = Int 320 /\ cheight (png_body png) = Int 140
    /\ enc_frames (bytes_of TARGET_default a) !! 0%nat = Some (png_body png).
Proof.
  intros a.
  pose proof (still_image_is_first_frame_on_the_second TARGET_default a false) as H.
  change (query_w (request a)) with (qstring "320") in H.
  change (query_h (request a)) with (qstring "140") in H.
  change (build_clock a) with t0 in H.
  destruct (get_countdown_png TARGET_default (qstring "320") (qstring "140") t0 false)
    as [png |]; [| discriminate H].
  destruct H as (_ & Hstatus & _ & _ & Hw & Hh & Hframe).
  exists png. split; [reflexivity |]. split; [exact Hstatus |].
  split; [exact Hw |]. split; [exact Hh |].
  apply Hframe; [vm_compute; reflexivity | vm_compute; discriminate].
Defined.

Lemma one_build_serves_all_witness :
  let st := exec TARGET_default (separate_turns [first_ok; second_before_expiry]) initial in
  builds_for small_key (trace st) = 1%nat
  /\ sent st = [(1%nat, res_end (bytes_of TARGET_default first_ok));
               (2%nat, res_end (bytes_of TARGET_default first_ok))].
Proof.
  intros st.
  destruct (one_build_serves_all TARGET_default first_ok [second_before_expiry] initial
              initial_owned eq_refl (initial_cache_miss _ _) eq_refl
              ltac:(repeat constructor)) as (Hb & Hs).
  split; [exact Hb | exact Hs].
Defined.
